(** * Order reconciliation of the lunch-ordering app

    A shallow embedding of [updateOrders] (src/redux/Actions.js), of
    [getOrdersArr] and [focusOrderNavigate]
    (src/screens/main/authenticated/HomeScreen.js) and of the tail of
    [getStateConstants] (src/redux/Actions.js), with the properties the
    specification states about them.

    JavaScript objects whose property order is observable
    ([Object.keys], [Object.values]) are association lists in the order
    of enumeration: array indices first, in ascending order, then the
    other names in the order of their creation; objects that are only
    read by property name are [gmap]s.
    The modules constants/Schedule and constants/Date are not part of
    the sources at hand: their functions are the fields of
    [ScheduleEnv], and every theorem of the reconciler holds for all of
    them. *)

From stdpp Require Import base option list sorting gmap strings pretty.
From Stdlib Require Import ZArith Lia.

Local Open Scope string_scope.
Local Open Scope list_scope.
Local Open Scope Z_scope.

(** ** Firestore documents *)

#[local] Set Warnings "-register-all".

(** Values stored in a document. *)
Inductive Value :=
| VStr (s : string)
| VNum (n : Z)
| VBool (b : bool)
| VNull
| VArr (l : list Value)
| VObj (l : list (string * Value)).

(** [doc.data()]: an object read by property name only. *)
Abbreviation Data := (gmap string Value).

(** A document of a query snapshot: [doc.id] and [doc.data()]. *)
Record Doc := { id : string; data : Data }.

(** [querySnapshot.docs], in the order [querySnapshot.forEach] visits. *)
Abbreviation QuerySnapshot := (list Doc).

(** A schedule group: an array of ISO date strings. *)
Abbreviation Group := (list string).

(** ** Objects with observable property order *)

Section Assoc.
Context {K V : Type} `{EqDecision K}.

(** [o[k]]. *)
Fixpoint prop (k : K) (o : list (K * V)) : option V :=
  match o with
  | [] => None
  | (k', v') :: r => if decide (k' = k) then Some v' else prop k r
  end.

(** [Object.keys(o)] and [Object.values(o)]. *)
Definition keysOf (o : list (K * V)) : list K := o.*1.
Definition valuesOf (o : list (K * V)) : list V := o.*2.
End Assoc.

(** The value of a decimal digit. *)
Definition digitOf (a : Ascii.ascii) : option N :=
  let n := Ascii.N_of_ascii a in
  if (48 <=? n)%N && (n <=? 57)%N then Some (n - 48)%N else None.

(** The number a string of decimal digits writes, after the digits
    read so far. *)
Fixpoint digitsOf (s : string) (acc : N) : option N :=
  match s with
  | EmptyString => Some acc
  | String a r =>
      match digitOf a with
      | Some d => digitsOf r (10 * acc + d)%N
      | None => None
      end
  end.

(** The array index a property name is, if it is one: the name is the
    canonical decimal numeral, without a leading zero, of an integer
    below 2^32 - 1. *)
Definition arrayIndex (s : string) : option N :=
  match s with
  | EmptyString => None
  | String a r =>
      if (Ascii.N_of_ascii a =? 48)%N && negb (bool_decide (r = EmptyString))
      then None
      else
        match digitsOf s 0 with
        | Some n => if (n <? 4294967295)%N then Some n else None
        | None => None
        end
  end.

(** A property name that is no array index. *)
Definition ordinaryName (s : string) : bool :=
  match arrayIndex s with
  | Some _ => false
  | None => true
  end.

(** [a] is not enumerated after [b]: array indices come first, in
    ascending order, and the other names follow. *)
Definition keyPrecedes (a b : string) : Prop :=
  match arrayIndex a, arrayIndex b with
  | Some m, Some n => (m ≤ n)%N
  | Some _, None => True
  | None, Some _ => False
  | None, None => True
  end.

Section Assign.
Context {V : Type}.

(** [o[k] = v] on a property the object has: it keeps its place. *)
Fixpoint replaceProp (k : string) (v : V) (o : list (string * V))
    : list (string * V) :=
  match o with
  | [] => []
  | (k', v') :: r =>
      if decide (k' = k) then (k, v) :: r else (k', v') :: replaceProp k v r
  end.

(** The place of a new array index [n]: after the smaller array
    indices, before every other property. *)
Fixpoint insertIndex (n : N) (k : string) (v : V) (o : list (string * V))
    : list (string * V) :=
  match o with
  | [] => [(k, v)]
  | (k', v') :: r =>
      match arrayIndex k' with
      | Some n' =>
          if (n' <? n)%N then (k', v') :: insertIndex n k v r
          else (k, v) :: o
      | None => (k, v) :: o
      end
  end.

(** [o[k] = v]: an existing property keeps its place; a new array
    index goes to its place among the array indices, and any other new
    name goes last. *)
Definition assign (k : string) (v : V) (o : list (string * V))
    : list (string * V) :=
  match prop k o with
  | Some _ => replaceProp k v o
  | None =>
      match arrayIndex k with
      | Some n => insertIndex n k v o
      | None => o ++ [(k, v)]
      end
  end.
End Assign.

(** [collectionData]: document id to stripped document data. *)
Abbreviation CollectionData := (list (string * Data)).

(** ** The absent modules *)

Inductive OrderScheduleTypes := DAILY | CUSTOM.

#[global] Instance OrderScheduleTypes_eq_dec : EqDecision OrderScheduleTypes.
Proof. solve_decision. Defined.

(** The functions of constants/Schedule and constants/Date, and the
    parts of moment the code calls.  A moment is the integer it
    compares by.  A function that takes no instant in the code but may
    read the clock gets the clock reading [now] as its first argument. *)
Record ScheduleEnv := {
  OrderSchedule : Type;
  LunchSchedule : Type;
  Schedule : Type;
  LunchDates : Type;
  (* [orderSchedule.scheduleType]; [None] when the property is absent *)
  scheduleType : OrderSchedule → option OrderScheduleTypes;
  (* [lunchSchedule.schedule] *)
  schedule : LunchSchedule → Schedule;
  (* [parseISO(x)] of constants/Date *)
  parseISO : option Value → Z;
  (* [moment(x)], also the reading [.diff(x)] makes of its argument *)
  moment : option Value → Z;
  (* [m.format(ISO_FORMAT)] *)
  format : Z → string;
  toReadable : option Value → Value;
  toSimple : option string → string;
  getCutoffDate : Z → OrderSchedule → Z;
  getValidOrderDates :
    Z → CollectionData → option string → OrderSchedule → LunchSchedule →
    string → string → list Group;
  getLunchSchedule :
    Z → OrderSchedule → LunchSchedule → string → string → LunchDates;
  getScheduleGroups : Z → LunchDates → Schedule → list Group;
  isBeforeCutoff : Z → Group → OrderSchedule → LunchSchedule → bool
}.

(** ** The orders state *)

(** A property of a group object [orders[i]]. *)
Inductive EntryVal :=
| EDates (g : Group)        (* date: group *)
| ENum (n : Z)              (* key: i, index *)
| EKeys (ks : list string)  (* keys: relevantKeys *)
| EOrder (d : Data).        (* [date]: collectionData[id] *)

Abbreviation Entry := (list (string * EntryVal)).

(** The [orders] object of the action: [collectionData] itself, or the
    group objects under their positions. *)
Inductive Orders :=
| OrdersById (collectionData : CollectionData)
| OrdersByGroup (orders : list (nat * Entry)).

(** ** updateOrders *)

(** [{ ...doc.data(), key: doc.id }] followed by [delete data.uid]. *)
Definition stripDoc (doc : Doc) : Data :=
  delete "uid" (<["key" := VStr (id doc)]> (data doc)).

(** The property name a value is used as in [{ [v]: ... }]; only
    strings reach it here. *)
Definition propertyKey (v : option Value) : string :=
  match v with
  | Some (VStr s) => s
  | _ => "undefined"
  end.

(** [group.includes(v)] on an array of strings. *)
Definition includes (group : Group) (v : option Value) : bool :=
  match v with
  | Some (VStr s) => bool_decide (s ∈ group)
  | _ => false
  end.

(** [moment.max(dates)]; the current time on an empty array. *)
Definition moment_max (now : Z) (dates : list Z) : Z :=
  match dates with
  | [] => now
  | d :: r => fold_left Z.max r d
  end.

(** [availableGroup[0] === group[0]]. *)
Definition sameFirst (availableGroup group : Group) : bool :=
  bool_decide (head availableGroup = head group).

(** The [for (const id of relevantKeys)] loop of a claimed group.  The
    relevant keys are keys of [collectionData], so the lookup always
    finds the record. *)
Definition addOrders (collectionData : CollectionData)
    (relevantKeys : list string) (entry : Entry) : Entry :=
  fold_left
    (fun e id' =>
       match prop id' collectionData with
       | Some d => assign (propertyKey (d !! "date")) (EOrder d) e
       | None => e
       end)
    relevantKeys entry.

(** [collectionDataKeys.filter((key) =>
      group.includes(collectionData[key].date))]. *)
Definition relevantKeysOf (collectionData : CollectionData)
    (group : Group) : list string :=
  List.filter
    (fun key =>
       match prop key collectionData with
       | Some d => includes group (d !! "date")
       | None => false
       end)
    (keysOf collectionData).

Section Reconciler.
Variable E : ScheduleEnv.

(** The [querySnapshot.forEach] loop, from the accumulated object. *)
Definition collect (cutoffDate : Z) (querySnapshot : QuerySnapshot)
    (acc : CollectionData) : CollectionData :=
  fold_left
    (fun cd doc =>
       let d := stripDoc doc in
       if bool_decide (cutoffDate ≤ parseISO E (d !! "date"))
       then assign (id doc) d cd
       else cd)
    querySnapshot acc.

Definition collectionDataOf (now : Z) (querySnapshot : QuerySnapshot)
    (orderSchedule : OrderSchedule E) : CollectionData :=
  collect (getCutoffDate E now orderSchedule) querySnapshot [].

(** [moment.max(dates).format(ISO_FORMAT)]. *)
Definition lastDate (now : Z) (querySnapshot : QuerySnapshot) : string :=
  format E
    (moment_max now
       (map (fun doc => moment E (data doc !! "date")) querySnapshot)).

Definition availableScheduleGroupsOf (now : Z)
    (querySnapshot : QuerySnapshot) (orderSchedule : OrderSchedule E)
    (lunchSchedule : LunchSchedule E) : list Group :=
  getValidOrderDates E now
    (collectionDataOf now querySnapshot orderSchedule) None
    orderSchedule lunchSchedule (format E now)
    (lastDate now querySnapshot).

Definition allScheduleGroupsOf (now : Z)
    (querySnapshot : QuerySnapshot) (orderSchedule : OrderSchedule E)
    (lunchSchedule : LunchSchedule E) : list Group :=
  getScheduleGroups E now
    (getLunchSchedule E now orderSchedule lunchSchedule (format E now)
       (lastDate now querySnapshot))
    (schedule E lunchSchedule).

Definition includesCutoffOf (now : Z)
    (availableScheduleGroups : list Group)
    (orderSchedule : OrderSchedule E)
    (lunchSchedule : LunchSchedule E) : bool :=
  match availableScheduleGroups with
  | [] => false
  | g :: _ => negb (isBeforeCutoff E now g orderSchedule lunchSchedule)
  end.

(** [let index = includesCutoff ? -1 : 0]. *)
Definition initialIndex (includesCutoff : bool) : Z :=
  if includesCutoff then -1 else 0.

(** The group object of a claimed group. *)
Definition groupEntry (collectionData : CollectionData) (group : Group)
    (i : nat) (index : Z) (relevantKeys : list string) : Entry :=
  addOrders collectionData relevantKeys
    [("date", EDates group); ("key", ENum (Z.of_nat i));
     ("index", ENum index); ("keys", EKeys relevantKeys)].

(** [allScheduleGroups.forEach((group, i) => ...)] from position [i],
    threading the counter [index] and the [orders] object.  Every
    position is visited once and in increasing order, so a new
    [orders[i]] is always the last property. *)
Fixpoint walk (availableScheduleGroups : list Group)
    (collectionData : CollectionData) (groups : list Group) (i : nat)
    (index : Z) (orders : list (nat * Entry)) : Z * list (nat * Entry) :=
  match groups with
  | [] => (index, orders)
  | group :: rest =>
      if existsb (fun availableGroup => sameFirst availableGroup group)
           availableScheduleGroups
      then walk availableScheduleGroups collectionData rest (S i)
             (index + 1) orders
      else
        let relevantKeys := relevantKeysOf collectionData group in
        match relevantKeys with
        | [] => walk availableScheduleGroups collectionData rest (S i)
                  index orders
        | _ :: _ =>
            walk availableScheduleGroups collectionData rest (S i) index
              (orders ++
               [(i, groupEntry collectionData group i index relevantKeys)])
        end
  end.

(** The [orders] property of the action [updateOrders] returns, at
    the clock reading [now]. *)
Definition updateOrders (now : Z) (querySnapshot : QuerySnapshot)
    (orderSchedule : OrderSchedule E) (lunchSchedule : LunchSchedule E)
    : Orders :=
  let collectionData := collectionDataOf now querySnapshot orderSchedule in
  if bool_decide (scheduleType E orderSchedule = Some CUSTOM)
     && negb (bool_decide (keysOf collectionData = []))
  then
    let availableScheduleGroups :=
      availableScheduleGroupsOf now querySnapshot orderSchedule
        lunchSchedule in
    let allScheduleGroups :=
      allScheduleGroupsOf now querySnapshot orderSchedule lunchSchedule in
    let includesCutoff :=
      includesCutoffOf now availableScheduleGroups orderSchedule
        lunchSchedule in
    OrdersByGroup
      (walk availableScheduleGroups collectionData allScheduleGroups 0%nat
         (initialIndex includesCutoff) []).2
  else OrdersById collectionData.
End Reconciler.

(** ** The home screen *)

Section Sort.
Context {A : Type} (compare : A → A → Z).

(** [arr.sort(compare)].  The sort of the language is stable, so on a
    comparator that orders the array consistently it returns the list
    that stable insertion builds. *)
Fixpoint insertSorted (x : A) (l : list A) : list A :=
  match l with
  | [] => [x]
  | y :: r =>
      if bool_decide (compare x y ≤ 0) then x :: y :: r
      else y :: insertSorted x r
  end.

Definition sortBy (l : list A) : list A := foldr insertSorted [] l.
End Sort.

(** An element of the array [getOrdersArr] builds for a CUSTOM
    schedule. *)
Record GroupView := {
  gv_date : string;
  gv_key : option EntryVal;
  gv_keys : option EntryVal;
  gv_multipleOrders : option EntryVal;
  gv_data : list Data
}.

Inductive Item :=
| OrderItem (order : Data)
| GroupItem (group : GroupView).

(** [order.date] of a rest property of a group object: a number has no
    property. *)
Definition dateOfVal (v : EntryVal) : option Value :=
  match v with
  | EOrder d => d !! "date"
  | _ => None
  end.

(** [{ ...order }] of a rest property: a number spreads to no property;
    the arrays sit under [date] and [keys], which are not rest
    properties. *)
Definition spreadOf (v : EntryVal) : Data :=
  match v with
  | EOrder d => d
  | _ => ∅
  end.

(** [order.date] of a group object, the array whose first and last
    elements are read. *)
Definition groupDates (e : Entry) : Group :=
  match prop "date" e with
  | Some (EDates g) => g
  | _ => []
  end.

(** The properties [...orderGroups] collects. *)
Definition restProps (e : Entry) : Entry :=
  List.filter
    (fun kv =>
       negb (bool_decide (kv.1 ∈ ["date"; "key"; "keys"; "multipleOrders"])))
    e.

Section HomeScreen.
Variable E : ScheduleEnv.

(** [parseISO(a.date).diff(b.date)]. *)
Definition compareDates (a b : option Value) : Z :=
  parseISO E a - moment E b.

Definition readable (order : Data) : Data :=
  <["date" := toReadable E (order !! "date")]> order.

(** The branch of [getOrdersArr] for a static (daily) schedule. *)
Definition getOrdersArr_static (orders : CollectionData) : list Data :=
  map readable
    (sortBy (fun a b => compareDates (a !! "date") (b !! "date"))
       (valuesOf orders)).

Definition firstDate (e : Entry) : option Value :=
  VStr <$> head (groupDates e).

Definition groupView (e : Entry) : GroupView :=
  {| gv_date :=
       toSimple E (head (groupDates e)) +:+ " to "
       +:+ toSimple E (last (groupDates e));
     gv_key := prop "key" e;
     gv_keys := prop "keys" e;
     gv_multipleOrders := prop "multipleOrders" e;
     gv_data :=
       map (fun v => <["date" := toReadable E (dateOfVal v)]> (spreadOf v))
         (sortBy (fun a b => compareDates (dateOfVal a) (dateOfVal b))
            (valuesOf (restProps e))) |}.

(** The branch of [getOrdersArr] for a dynamic (custom) schedule. *)
Definition getOrdersArr_dynamic (orders : list (nat * Entry))
    : list GroupView :=
  map groupView
    (sortBy (fun a b => compareDates (firstDate a) (firstDate b))
       (valuesOf orders)).

(** [getOrdersArr(orders, dynamicSchedule)] on a state and a flag of
    the same kind, and on an empty state.  The source goes on for any
    object: single orders read as group objects, or group objects read
    as single orders, as can happen while the state and the schedule of
    the store are out of step.  Single orders read as group objects are
    taken apart field by field, in the order of the fields of the
    document, which is not held here.  Neither case is modelled: such a
    call has no value. *)
Definition getOrdersArr (orders : Orders) (dynamicSchedule : bool)
    : option (list Item) :=
  match orders, dynamicSchedule with
  | OrdersById cd, false => Some (OrderItem <$> getOrdersArr_static cd)
  | OrdersByGroup l, true => Some (GroupItem <$> getOrdersArr_dynamic l)
  | OrdersById [], true => Some []
  | OrdersByGroup [], false => Some []
  | _, _ => None
  end.

(** The flag of [mapStateToProps]:
    [stateConstants.orderSchedule?.scheduleType === CUSTOM]. *)
Definition dynamicSchedule (orderSchedule : option (OrderSchedule E))
    : bool :=
  bool_decide (orderSchedule ≫= scheduleType E = Some CUSTOM).
End HomeScreen.

(** What a tap on a card does. *)
Inductive Effect :=
| Alert (title message : string)
| FocusOrder (key : option Value + option EntryVal)
| Navigate (route screen : string).

(** [!!v]. *)
Definition truthy (v : option Value) : bool :=
  match v with
  | None | Some VNull => false
  | Some (VStr s) => negb (bool_decide (s = ""))
  | Some (VNum n) => negb (n =? 0)
  | Some (VBool b) => b
  | Some (VArr _) | Some (VObj _) => true
  end.

(** [v.toString()] of a stored value; inside an array, null is the
    empty string. *)
Fixpoint valueToString (v : Value) : string :=
  match v with
  | VStr s => s
  | VNum n => pretty n
  | VBool b => if b then "true" else "false"
  | VNull => ""
  | VArr l => String.concat "," (map valueToString l)
  | VObj _ => "[object Object]"
  end.

(** *** The number a string is read as

    The bytes of a string; a character outside ASCII is held as the
    bytes of its UTF-8 form. *)
Definition bytesOf (s : string) : list N :=
  map Ascii.N_of_ascii (String.list_ascii_of_string s).

(** White space and line terminators of the language: tab, line feed,
    vertical tab, form feed, carriage return and space; U+00A0; U+1680,
    U+2000 to U+200A, U+2028, U+2029, U+202F, U+205F, U+3000 and
    U+FEFF. *)
Definition asciiSpace (b : N) : bool :=
  (((9 <=? b) && (b <=? 13)) || (b =? 32))%N.

Definition twoByteSpace (b1 b2 : N) : bool := ((b1 =? 194) && (b2 =? 160))%N.

Definition threeByteSpace (b1 b2 b3 : N) : bool :=
  (((b1 =? 225) && (b2 =? 154) && (b3 =? 128))
   || ((b1 =? 226) && (b2 =? 128)
       && (((128 <=? b3) && (b3 <=? 138))
           || (b3 =? 168) || (b3 =? 169) || (b3 =? 175)))
   || ((b1 =? 226) && (b2 =? 129) && (b3 =? 159))
   || ((b1 =? 227) && (b2 =? 128) && (b3 =? 128))
   || ((b1 =? 239) && (b2 =? 187) && (b3 =? 191)))%N.

(** The white space at the start of the bytes dropped; [two] and
    [three] recognise the characters of two and of three bytes. *)
Fixpoint dropSpace (two : N → N → bool) (three : N → N → N → bool)
    (l : list N) : list N :=
  match l with
  | [] => []
  | b1 :: r1 =>
      if asciiSpace b1 then dropSpace two three r1
      else
        match r1 with
        | [] => l
        | b2 :: r2 =>
            if two b1 b2 then dropSpace two three r2
            else
              match r2 with
              | [] => l
              | b3 :: r3 =>
                  if three b1 b2 b3 then dropSpace two three r3 else l
              end
        end
  end.

(** The white space at both ends dropped; at the end the bytes of a
    character are met last byte first. *)
Definition trimSpace (l : list N) : list N :=
  rev
    (dropSpace (fun b2 b1 => twoByteSpace b1 b2)
       (fun b3 b2 b1 => threeByteSpace b1 b2 b3)
       (rev (dropSpace twoByteSpace threeByteSpace l))).

Definition isDigit (b : N) : bool := ((48 <=? b) && (b <=? 57))%N.

(** The decimal digits at the start of the bytes, and the rest. *)
Fixpoint spanDigits (l : list N) : list N * list N :=
  match l with
  | [] => ([], [])
  | b :: r =>
      if isDigit b then (b :: (spanDigits r).1, (spanDigits r).2)
      else ([], l)
  end.

(** The number a list of decimal digits writes. *)
Definition numberOf (digits : list N) : N :=
  fold_left (fun acc b => (10 * acc + (b - 48))%N) digits 0%N.

(** The exponent part of a decimal literal that ends with it: nothing,
    or [e] or [E], an optional sign and at least one digit. *)
Definition exponentOf (l : list N) : option Z :=
  match l with
  | [] => Some 0
  | b :: r =>
      if ((b =? 101) || (b =? 69))%N then
        let signed :=
          match r with
          | c :: t =>
              if (c =? 43)%N then (1, t)
              else if (c =? 45)%N then (-1, t) else (1, r)
          | [] => (1, r)
          end in
        match spanDigits signed.2 with
        | (d :: ds, []) => Some (signed.1 * Z.of_N (numberOf (d :: ds)))
        | _ => None
        end
      else None
  end.

(** An unsigned decimal literal other than Infinity, as its digits and
    the power of ten they are scaled by: digits, a point and digits, of
    which those before or those after the point may be missing but not
    both, and an exponent part. *)
Definition decimalOf (l : list N) : option (list N * Z) :=
  let whole := spanDigits l in
  let fraction :=
    match whole.2 with
    | b :: r => if (b =? 46)%N then spanDigits r else ([], whole.2)
    | [] => ([], [])
    end in
  match whole.1 ++ fraction.1 with
  | [] => None
  | digits =>
      match exponentOf fraction.2 with
      | Some e => Some (digits, e - Z.of_nat (length fraction.1))
      | None => None
      end
  end.

(** The value [digits] times ten to the [e] does not round to zero as a
    double: it is above 2^-1075, half of the least positive double.
    A value that is below 10^-324 by the number of its digits alone is
    settled without computing a power. *)
Definition roundsToNonzero (digits : list N) (e : Z) : bool :=
  if (numberOf digits =? 0)%N then false
  else if 0 <=? e then true
  else if Z.of_nat (length digits) + e <=? -324 then false
  else 10 ^ (- e) <? Z.of_N (numberOf digits) * 2 ^ 1075.

(** [Number(s) < 0]: after the white space at both ends, a minus sign
    and Infinity or an unsigned decimal literal whose value does not
    round to zero.  Anything else is read as a number that is not
    negative, or as no number. *)
Definition negativeNumeral (s : string) : bool :=
  match trimSpace (bytesOf s) with
  | b :: u =>
      if (b =? 45)%N then
        if bool_decide (u = bytesOf "Infinity") then true
        else
          match decimalOf u with
          | Some (digits, e) => roundsToNonzero digits e
          | None => false
          end
      else false
  | [] => false
  end.

(** [v < 0]: a number is compared as it is, a string is read as a
    number, an array is read through its string, and undefined, null, a
    boolean or any other object is never below zero. *)
Definition lessThanZero (v : option Value) : bool :=
  match v with
  | Some (VNum n) => n <? 0
  | Some (VStr s) => negativeNumeral s
  | Some (VArr l) => negativeNumeral (valueToString (VArr l))
  | _ => false
  end.

(** [focusOrderNavigate(id, hasTitle, index)]. *)
Definition focusOrderNavigate (dynamicMenu : bool)
    (id : option Value + option EntryVal) (hasTitle : bool)
    (index : option Value) : list Effect :=
  if truthy index && lessThanZero index
  then [Alert "Cannot edit order" "It is too late to edit this order."]
  else
    [FocusOrder id;
     Navigate "Order"
       (if hasTitle && negb dynamicMenu then "Preset Order"
        else "Custom Order")].

(** [item.index]: the [index] field of the stored order, if it has one.
    The items of a dynamic schedule have no such property:
    [getOrdersArr] leaves [index] among the rest properties. *)
Definition itemIndex (item : Item) : option Value :=
  match item with
  | OrderItem order => order !! "index"
  | GroupItem _ => None
  end.

(** The [onPress] of a card:
    [focusOrderNavigate(item.key, !!item.title, item.index)]. *)
Definition pressItem (dynamicMenu : bool) (item : Item) : list Effect :=
  match item with
  | OrderItem order =>
      focusOrderNavigate dynamicMenu (inl (order !! "key"))
        (truthy (order !! "title")) (itemIndex item)
  | GroupItem group =>
      focusOrderNavigate dynamicMenu (inr (gv_key group)) false
        (itemIndex item)
  end.

(** ** Dependent lunch schedules *)

(** The end of [getStateConstants]: the branch for a dependent lunch
    schedule has an empty body. *)
Definition finishStateConstants {Constants : Type}
    (dependentLunchSchedule : Constants → bool) (constants : Constants)
    : Constants :=
  if dependentLunchSchedule constants then constants else constants.

Inductive ScheduleError :=
| InvalidRange
| UnresolvedUserSchedule
| MalformedConfig.

(** A lunch schedule configuration: one configuration for everybody, or
    sub-configurations under the values of a user attribute. *)
Inductive LunchScheduleConfig (Config : Type) :=
| Uniform (config : Config)
| Dependent (attribute : string) (subConfigs : gmap string Config).
Arguments Uniform {Config} config.
Arguments Dependent {Config} attribute subConfigs.

Definition dependent {Config : Type} (c : LunchScheduleConfig Config) : bool :=
  match c with
  | Uniform _ => false
  | Dependent _ _ => true
  end.

(** Modelled from the spec: [getUserLunchSchedule] of constants/Schedule
    (the specification's [resolveForUser]), which the sources at hand
    only call.  A configuration that is not dependent is returned
    unchanged; a dependent one is looked up under the user's value of
    the attribute, and the lookup fails with [UnresolvedUserSchedule]
    when that value has no sub-configuration. *)
Definition getUserLunchSchedule {Config : Type}
    (lunchConfig : LunchScheduleConfig Config) (user : gmap string string)
    : ScheduleError + LunchScheduleConfig Config :=
  match lunchConfig with
  | Uniform _ => inr lunchConfig
  | Dependent attribute subConfigs =>
      match user !! attribute ≫= (subConfigs !!.) with
      | Some config => inr (Uniform config)
      | None => inl UnresolvedUserSchedule
      end
  end.

(** The [lunchSchedule] property of [mapStateToProps]:
    [getUserLunchSchedule(stateConstants.lunchSchedule, user || {})]. *)
Definition userLunchSchedule {Config : Type}
    (lunchSchedule : LunchScheduleConfig Config)
    (user : option (gmap string string))
    : ScheduleError + LunchScheduleConfig Config :=
  getUserLunchSchedule lunchSchedule (default ∅ user).

(** ** A small calendar

    A concrete [ScheduleEnv] on which the functions above can be run:
    the dates of March 2021, instants counted in hours from the start
    of the month. *)
Module Calendar.

Record OrderConfig := {
  oc_scheduleType : option OrderScheduleTypes;
  (* hours before the start of a group's first day at which it closes *)
  oc_lead : Z
}.

Record LunchConfig := {
  (* days of the month on which lunch is served, increasing *)
  lc_days : list Z;
  (* lunch days per group *)
  lc_schedule : nat
}.

Definition digit (n : Z) : string :=
  String (Ascii.ascii_of_nat (48 + Z.to_nat n)) EmptyString.

Definition digitAt (i : nat) (s : string) : Z :=
  match String.get i s with
  | Some a => Z.of_nat (Ascii.nat_of_ascii a) - 48
  | None => 0
  end.

(** The ISO string of a day of the month, and the day of a string. *)
Definition isoOfDay (d : Z) : string :=
  "2021-03-" +:+ digit (d / 10) +:+ digit (d mod 10).

Definition dayOfIso (s : string) : Z := 10 * digitAt 8 s + digitAt 9 s.

(** The start of the day a date string names. *)
Definition instantOf (v : option Value) : Z :=
  match v with
  | Some (VStr s) => 24 * (dayOfIso s - 1)
  | _ => 0
  end.

Definition formatIso (t : Z) : string := isoOfDay (t / 24 + 1).

(** Modelled from the spec: the cutoff boundary date of the current
    cycle, absent from the sources; taken to be the start of the
    current day. *)
Definition cutoffDate (now : Z) (os : OrderConfig) : Z := 24 * (now / 24).

(** Modelled from the spec: the Calendar Resolver, absent from the
    sources; the lunch days within the inclusive bounds, in
    increasing order. *)
Definition lunchDates (now : Z) (os : OrderConfig) (ls : LunchConfig)
    (from to : string) : list string :=
  map isoOfDay
    (List.filter (fun d => (dayOfIso from <=? d) && (d <=? dayOfIso to))
       (lc_days ls)).

(** Modelled from the spec: the Group Partitioner, absent from the
    sources; the dates are consumed in order in windows of the
    configured size, and a shorter last window is still a group. *)
Fixpoint windows (fuel size : nat) (dates : list string) : list Group :=
  match fuel, dates with
  | S fuel', _ :: _ =>
      take (Nat.max 1 size) dates
      :: windows fuel' size (drop (Nat.max 1 size) dates)
  | _, _ => []
  end.

Definition scheduleGroups (now : Z) (dates : list string) (size : nat)
    : list Group :=
  windows (length dates) size dates.

(** Modelled from the spec: the Cutoff Evaluator, absent from the
    sources; true iff [now] is strictly earlier than the cutoff
    instant of the group's first date. *)
Definition beforeCutoff (now : Z) (group : Group) (os : OrderConfig)
    (ls : LunchConfig) : bool :=
  match head group with
  | Some d => now <? instantOf (Some (VStr d)) - oc_lead os
  | None => false
  end.

(** Modelled from the spec: the groups of the window for which no
    order has been placed, absent from the sources. *)
Definition validOrderDates (now : Z) (collectionData : CollectionData)
    (focused : option string) (os : OrderConfig) (ls : LunchConfig)
    (from to : string) : list Group :=
  List.filter
    (fun group =>
       forallb (fun d => negb (includes group (d !! "date")))
         (valuesOf collectionData))
    (scheduleGroups now (lunchDates now os ls from to) (lc_schedule ls)).

Definition env : ScheduleEnv :=
  {| OrderSchedule := OrderConfig;
     LunchSchedule := LunchConfig;
     Schedule := nat;
     LunchDates := list string;
     scheduleType := oc_scheduleType;
     schedule := lc_schedule;
     parseISO := instantOf;
     moment := instantOf;
     format := formatIso;
     toReadable := default VNull;
     toSimple := default "";
     getCutoffDate := cutoffDate;
     getValidOrderDates := validOrderDates;
     getLunchSchedule := lunchDates;
     getScheduleGroups := scheduleGroups;
     isBeforeCutoff := beforeCutoff |}.

(** An order document for a day of the month. *)
Definition order (key : string) (uid : string) (day : Z) : Doc :=
  {| id := key;
     data := {[ "date" := VStr (isoOfDay day); "uid" := VStr uid;
                "title" := VStr "Sandwich" ]} |}.

Definition custom (lead : Z) : OrderConfig :=
  {| oc_scheduleType := Some CUSTOM; oc_lead := lead |}.

Definition daily : OrderConfig :=
  {| oc_scheduleType := Some DAILY; oc_lead := 0 |}.

(** Lunch on the first ten days of the month, in groups of five. *)
Definition tenDays : LunchConfig :=
  {| lc_days := [1; 2; 3; 4; 5; 6; 7; 8; 9; 10]; lc_schedule := 5 |}.

(** Lunch on the first fifteen days, in groups of five. *)
Definition fifteenDays : LunchConfig :=
  {| lc_days := [1; 2; 3; 4; 5; 6; 7; 8; 9; 10; 11; 12; 13; 14; 15];
     lc_schedule := 5 |}.

(** Lunch on the 1st, 2nd, 3rd, 5th and 6th, in groups of two. *)
Definition sparseDays : LunchConfig :=
  {| lc_days := [1; 2; 3; 5; 6]; lc_schedule := 2 |}.

(** No lunch day. *)
Definition noDays : LunchConfig := {| lc_days := []; lc_schedule := 2 |}.

(** Orders for the 5th and the 15th. *)
Definition fifthAndFifteenth : QuerySnapshot :=
  [order "a" "u1" 5; order "b" "u1" 15].

(** Orders for the 4th and the 5th. *)
Definition fourthAndFifth : QuerySnapshot :=
  [order "a" "u1" 4; order "b" "u1" 5].

(** Orders for the 2nd and the 5th. *)
Definition secondAndFifth : QuerySnapshot :=
  [order "a" "u1" 2; order "b" "u1" 5].
End Calendar.


(** ** Reading the orders state *)

(** [orders[i].keys] and [orders[i].index]. *)
Definition entryKeys (e : Entry) : list string :=
  match prop "keys" e with
  | Some (EKeys ks) => ks
  | _ => []
  end.

Definition entryIndex (e : Entry) : option Z :=
  match prop "index" e with
  | Some (ENum n) => Some n
  | _ => None
  end.

(** The order records a group object holds under their dates. *)
Definition entryRecords (e : Entry) : list Data :=
  omap (fun kv => match kv.2 with EOrder d => Some d | _ => None end) e.

(** The group objects of the state. *)
Definition groupsOf (o : Orders) : list (nat * Entry) :=
  match o with
  | OrdersById _ => []
  | OrdersByGroup l => l
  end.

(** The document ids the state lists, and the order records it holds. *)
Definition orderKeys (o : Orders) : list string :=
  match o with
  | OrdersById cd => keysOf cd
  | OrdersByGroup l => l ≫= (fun ie => entryKeys ie.2)
  end.

Definition recordsOf (o : Orders) : list Data :=
  match o with
  | OrdersById cd => valuesOf cd
  | OrdersByGroup l => l ≫= (fun ie => entryRecords ie.2)
  end.

(** The test [updateOrders] makes of a group: its first date is the
    first date of an available group. *)
Definition isAvailable (availableScheduleGroups : list Group)
    (group : Group) : bool :=
  existsb (fun availableGroup => sameFirst availableGroup group)
    availableScheduleGroups.

(** The number of available groups among [groups]. *)
Definition availableCount (availableScheduleGroups groups : list Group)
    : nat :=
  length (List.filter (isAvailable availableScheduleGroups) groups).

(** A surviving record lies in a group. *)
Definition matches (collectionData : CollectionData) (group : Group)
    (key : string) : Prop :=
  ∃ d, prop key collectionData = Some d ∧ includes group (d !! "date") = true.

(** A group is claimed: some surviving record lies in it. *)
Definition claimed (collectionData : CollectionData) (group : Group)
    : Prop :=
  ∃ key, matches collectionData group key.


(** The dates of the groups are not the names of the fixed properties
    of a group object. *)
Definition plainDates (groups : list Group) : Prop :=
  Forall (Forall (fun s => s ∉ ["date"; "key"; "index"; "keys"])) groups.


(** Two snapshots that differ in the [uid] of their records only. *)
Definition sameButUid (qs1 qs2 : QuerySnapshot) : Prop :=
  map (fun doc => (id doc, delete "uid" (data doc))) qs1
  = map (fun doc => (id doc, delete "uid" (data doc))) qs2.

(** The group object [e] stands under position [j] after the walk from
    position [i] with the counter at [index]: the group there is not
    available, is claimed, and [e] is its group object with the
    counter's value at its turn. *)
Definition placed (availableScheduleGroups : list Group)
    (collectionData : CollectionData) (groups : list Group) (i : nat)
    (index : Z) (j : nat) (e : Entry) : Prop :=
  ∃ g, (i ≤ j)%nat ∧ groups !! (j - i)%nat = Some g
       ∧ isAvailable availableScheduleGroups g = false
       ∧ claimed collectionData g
       ∧ e = groupEntry collectionData g j
               (index
                + Z.of_nat
                    (availableCount availableScheduleGroups
                       (take (j - i) groups)))
               (relevantKeysOf collectionData g).

(** The groups are in chronological order of their first dates, as the
    comparator of [getOrdersArr] reads them. *)
Definition chronological (E : ScheduleEnv) (groups : list Group) : Prop :=
  StronglySorted
    (fun g g' => compareDates E (VStr <$> head g) (VStr <$> head g') ≤ 0)
    groups.

(** Group objects from the soonest first date to the farthest. *)
Definition soonestFirst (E : ScheduleEnv) (entries : list Entry) : Prop :=
  StronglySorted
    (fun e e' => compareDates E (firstDate e) (firstDate e') ≤ 0) entries.

(** The documents of a snapshot that pass the filter of [updateOrders]
    for the cutoff date [c]. *)
Definition freshDocs (E : ScheduleEnv) (c : Z) (qs : QuerySnapshot)
    : QuerySnapshot :=
  List.filter
    (fun doc => bool_decide (c ≤ parseISO E (data doc !! "date"))) qs.

(** ** The statements the code does not meet, as the specification
    words them *)

Section AsStated.
Variable E : ScheduleEnv.

(** The counter starts at 0 when some available group is still open,
    and at -1 otherwise. *)
Definition startsAsStated (now : Z) (querySnapshot : QuerySnapshot)
    (orderSchedule : OrderSchedule E) (lunchSchedule : LunchSchedule E)
    : Prop :=
  let available :=
    availableScheduleGroupsOf E now querySnapshot orderSchedule
      lunchSchedule in
  initialIndex
    (includesCutoffOf E now available orderSchedule lunchSchedule)
  = if existsb
         (fun g => isBeforeCutoff E now g orderSchedule lunchSchedule)
         available
    then 0 else -1.

(** The clock is not read: the result is the same at any two clock
    readings. *)
Definition clockNotRead (querySnapshot : QuerySnapshot)
    (orderSchedule : OrderSchedule E) (lunchSchedule : LunchSchedule E)
    : Prop :=
  ∀ now1 now2,
    updateOrders E now1 querySnapshot orderSchedule lunchSchedule
    = updateOrders E now2 querySnapshot orderSchedule lunchSchedule.

End AsStated.

(** ** Writing orders *)

(** An operation of a write batch on the orders collection. *)
Inductive BatchOp :=
| SetNew (data : Data)
  (* batch.set(allOrders(domain).doc(), data) *)
| SetAt (id : option string) (data : Data)
  (* batch.set(allOrders(domain).doc(ids[i]), data) *)
| DeleteAt (key : option Value + option EntryVal).
  (* batch.delete(allOrders(domain).doc(key)) *)

Section Writes.
(** [toISO] of constants/Date. *)
Variable toISO : option Value → Value.

(** [dataToPush] of [createOrder] and [editOrder] when the schedule is
    not dynamic: [[{ ...data, date: toISO(data.date), uid }]]. *)
Definition dataToPush_static (data : Data) (uid : string) : list Data :=
  [<["uid" := VStr uid]> (<["date" := toISO (data !! "date")]> data)].

(** [dataToPush] when the schedule is dynamic, on an object that holds
    order objects under their dates:
    [Object.keys(data).filter((key) => key !== "date")
       .map((date) => ({ ...data[date], date, uid }))]. *)
Definition dataToPush_dynamic (data : list (string * Data)) (uid : string)
    : list Data :=
  map
    (fun date =>
       <["uid" := VStr uid]>
         (<["date" := VStr date]> (default ∅ (prop date data))))
    (List.filter (fun key => negb (bool_decide (key = "date")))
       (keysOf data)).

(** The batch [createOrder] commits: every document under a new id. *)
Definition createOrder_static (data : Data) (uid : string) : list BatchOp :=
  map SetNew (dataToPush_static data uid).

(** The batch [editOrder] commits: the i-th document, without its
    [key], under [ids[i]]. *)
Definition editOrder_static (data : Data) (ids : list string) (uid : string)
    : list BatchOp :=
  imap (fun i d => SetAt (ids !! i) (delete "key" d))
    (dataToPush_static data uid).
End Writes.

(** The [id] argument of [deleteOrder]: an array, or anything else. *)
Inductive IdArg :=
| IdArray (keys : list Value)
| IdOther (key : option Value + option EntryVal).

(** The batch [deleteOrder] commits. *)
Definition deleteOrder (id : IdArg) : list BatchOp :=
  match id with
  | IdArray keys => map (fun key => DeleteAt (inl (Some key))) keys
  | IdOther key => [DeleteAt key]
  end.

(** [item.keys || item.key] of the [onDelete] of a card. *)
Definition deleteArg (item : Item) : IdArg :=
  match item with
  | OrderItem order =>
      if truthy (order !! "keys")
      then match order !! "keys" with
           | Some (VArr l) => IdArray l
           | v => IdOther (inl v)
           end
      else IdOther (inl (order !! "key"))
  | GroupItem group =>
      match gv_keys group with
      | Some (EKeys ks) => IdArray (VStr <$> ks)
      | Some (EDates ds) => IdArray (VStr <$> ds)
      | Some (ENum n) =>
          if n =? 0 then IdOther (inr (gv_key group))
          else IdOther (inr (Some (ENum n)))
      | Some (EOrder d) => IdOther (inr (Some (EOrder d)))
      | None => IdOther (inr (gv_key group))
      end
  end.

(** ** The focused order *)

(** The [id] of the action [focusOrder(id)] builds, [id.toString()];
    no action when [id] is undefined or null, on which the call
    throws. *)
Definition focusOrder (id : option Value + option EntryVal)
    : option string :=
  match id with
  | inl (Some VNull) | inl None | inr None => None
  | inl (Some v) => Some (valueToString v)
  | inr (Some (ENum n)) => Some (pretty n)
  | inr (Some (EKeys ks)) => Some (String.concat "," ks)
  | inr (Some (EDates ds)) => Some (String.concat "," ds)
  | inr (Some (EOrder _)) => Some "[object Object]"
  end.

(** [Object.keys(orders)], as a set: the position [i] of a group object
    is the property name [String(i)]. *)
Definition stateKeys (o : Orders) : list string :=
  match o with
  | OrdersById cd => keysOf cd
  | OrdersByGroup l => (fun ie => pretty (Z.of_nat ie.1)) <$> l
  end.

(** ** Presets *)

(** The [presets] object of the action [updatePresets] returns:
    [presets[doc.id] = { ...doc.data(), key: doc.id }]. *)
Definition updatePresets (querySnapshot : QuerySnapshot)
    : list (string * Data) :=
  fold_left
    (fun presets doc =>
       assign (id doc) (<["key" := VStr (id doc)]> (data doc)) presets)
    querySnapshot [].

(** The document [editPreset] writes under [id]: the data without its
    [key]. *)
Definition editPreset (data : Data) : Data := delete "key" data.

(** ** The profile *)

(** The document [editUserData] writes. *)
Definition editUserData (data : Data) : Data :=
  delete "domain" (delete "email" (delete "password" (delete "uid" data))).

(** The [data] of the action [updateUserData(uid, doc)] returns,
    [{ uid, email: auth().currentUser.email, ...(doc.data() || {}) }]:
    the fields of the document come last and prevail. *)
Definition updateUserData (uid : string) (email : Value) (doc : option Data)
    : Data :=
  default ∅ doc ∪ <["uid" := VStr uid]> (<["email" := email]> ∅).

(** ** The domains of a user *)

(** The data of a document of the collection userDomains. *)
Record UserDomains := {
  ud_domains : option (list (option string));
  ud_domain : option string
}.

(** [domains] of the transactions of [createUser] and
    [createUserDomain]: empty when the document does not exist, else
    [doc.data().domains || [doc.data().domain]]. *)
Definition storedDomains (doc : option UserDomains)
    : list (option string) :=
  match doc with
  | None => []
  | Some d =>
      match ud_domains d with
      | Some l => l
      | None => [ud_domain d]
      end
  end.

(** The transaction of [createUser] for an account that exists: the
    document it sets, or none when it throws
    [auth/email-already-in-use]. *)
Definition joinDomain (doc : option UserDomains) (domain : string)
    : option UserDomains :=
  if bool_decide (Some domain ∈ storedDomains doc) then None
  else
    Some {| ud_domains := Some (storedDomains doc ++ [Some domain]);
            ud_domain := None |}.

(** The document [createUser] sets for a new account. *)
Definition firstDomain (domain : string) : UserDomains :=
  {| ud_domains := Some [Some domain]; ud_domain := None |}.

(** The domain id [getUserDomain] goes on with; none when it throws
    "User did not have a domain".  The id itself is undefined when the
    list of domains is empty. *)
Definition getUserDomain (doc : option UserDomains)
    : option (option string) :=
  match doc with
  | None => None
  | Some d =>
      match ud_domains d, ud_domain d with
      | Some l, _ => Some (mjoin (head l))
      | None, Some s => if bool_decide (s = "") then None else Some (Some s)
      | None, None => None
      end
  end.

(** ** The dynamic menu *)

(** The data of a document of the collection dynamicMenu. *)
Record MenuDoc := { active : list string; orderOptions : Value }.

(** A property of the object [getDynamicOrderOptions] builds. *)
Inductive MenuVal :=
| MenuFlag (b : bool)        (* dynamic: true *)
| MenuOptions (o : Value).   (* [date]: orderOptions *)

(** [allOrderOptions] after the loop over the documents. *)
Definition getDynamicOrderOptions (docs : list MenuDoc)
    : gmap string MenuVal :=
  fold_left
    (fun all doc =>
       fold_left (fun a date => <[date := MenuOptions (orderOptions doc)]> a)
         (active doc) all)
    docs {[ "dynamic" := MenuFlag true ]}.

(** * Properties *)

(** ** Objects in the order of enumeration *)

Section AssocFacts.
Context {K V : Type} `{EqDecision K}.
Implicit Types (k : K) (v : V) (o : list (K * V)).

Lemma prop_Some_elem_of k v o : prop k o = Some v → (k, v) ∈ o.
Proof.
  induction o as [|[k0 v0] r IH]; simpl; [done|].
  destruct (decide (k0 = k)) as [->|Hne0].
  - intros [= ->]. by left.
  - intros ?. right. by apply IH.
Qed.

Lemma prop_None k o : prop k o = None ↔ k ∉ keysOf o.
Proof.
  unfold keysOf. induction o as [|[k0 v0] r IH]; simpl.
  - split; [intros _; apply not_elem_of_nil|done].
  - rewrite not_elem_of_cons. destruct (decide (k0 = k)) as [->|Hne0].
    + split; [done|]. by intros [? _].
    + rewrite IH. split; [intros ?; split; [congruence|done]|by intros [_ ?]].
Qed.

Lemma prop_is_Some k o : is_Some (prop k o) ↔ k ∈ keysOf o.
Proof.
  rewrite <-not_eq_None_Some, prop_None.
  destruct (decide (k ∈ keysOf o)); naive_solver.
Qed.

Lemma elem_of_prop k v o : NoDup (keysOf o) → (k, v) ∈ o → prop k o = Some v.
Proof.
  unfold keysOf. induction o as [|[k0 v0] r IH]; simpl.
  - by intros _ ?%elem_of_nil.
  - intros [Hk0 Hnd]%NoDup_cons [[= -> ->]|Hin]%elem_of_cons.
    + by rewrite decide_True.
    + rewrite decide_False; [by apply IH|].
      intros ->. apply Hk0. by apply (list_elem_of_fmap_2 fst _ (k, v)).
Qed.

Lemma prop_app k o1 o2 :
  prop k (o1 ++ o2) = match prop k o1 with Some v => Some v | None => prop k o2 end.
Proof.
  induction o1 as [|[k0 v0] r IH]; simpl; [done|].
  by destruct (decide (k0 = k)).
Qed.
End AssocFacts.

Section AssignFacts.
Context {V : Type}.
Implicit Types (k : string) (v : V) (o : list (string * V)).

Lemma prop_replaceProp_eq k v o :
  k ∈ keysOf o → prop k (replaceProp k v o) = Some v.
Proof.
  unfold keysOf. induction o as [|[k0 v0] r IH]; simpl.
  - by intros ?%elem_of_nil.
  - intros Hin. destruct (decide (k0 = k)) as [->|Hne]; simpl.
    + by rewrite decide_True.
    + rewrite decide_False by done. apply IH.
      apply elem_of_cons in Hin as [?|?]; [congruence|done].
Qed.

Lemma prop_replaceProp_ne k k' v o :
  k ≠ k' → prop k' (replaceProp k v o) = prop k' o.
Proof.
  intros Hne. induction o as [|[k0 v0] r IH]; simpl; [done|].
  destruct (decide (k0 = k)) as [->|Hne0]; simpl.
  - by rewrite !decide_False.
  - by rewrite IH.
Qed.

Lemma keysOf_replaceProp k v o : keysOf (replaceProp k v o) = keysOf o.
Proof.
  unfold keysOf. induction o as [|[k0 v0] r IH]; [done|].
  cbn [replaceProp]. destruct (decide (k0 = k)) as [->|Hne0]; [done|].
  by rewrite !fmap_cons, IH.
Qed.

Lemma elem_of_replaceProp k v o kv :
  kv ∈ replaceProp k v o → kv = (k, v) ∨ kv ∈ o.
Proof.
  induction o as [|[k0 v0] r IH]; simpl.
  - by intros ?%elem_of_nil.
  - destruct (decide (k0 = k)) as [->|Hne0].
    + intros [->|?]%elem_of_cons; [by left|right; by right].
    + intros [->|?]%elem_of_cons; [right; by left|].
      destruct IH as [?|?]; [done|by left|right; by right].
Qed.

(** A new array index is put somewhere among the properties, which
    keep their order. *)
Lemma insertIndex_split n k v o :
  ∃ o1 o2, o = o1 ++ o2 ∧ insertIndex n k v o = o1 ++ (k, v) :: o2.
Proof.
  induction o as [|[k0 v0] r IH]; simpl.
  - by exists [], [].
  - destruct (arrayIndex k0) as [n0|]; [|by exists [], ((k0, v0) :: r)].
    destruct (n0 <? n)%N; [|by exists [], ((k0, v0) :: r)].
    destruct IH as (o1 & o2 & -> & ->). by exists ((k0, v0) :: o1), o2.
Qed.

(** A new property is put somewhere among the others, which keep
    their order and values. *)
Lemma assign_new_split k v o :
  k ∉ keysOf o →
  ∃ o1 o2, o = o1 ++ o2 ∧ assign k v o = o1 ++ (k, v) :: o2.
Proof.
  intros Hk%prop_None. unfold assign. rewrite Hk.
  destruct (arrayIndex k) as [n|]; [apply insertIndex_split|].
  exists o, []. by rewrite app_nil_r.
Qed.

Lemma assign_old k v o : k ∈ keysOf o → assign k v o = replaceProp k v o.
Proof.
  intros [w Hw]%prop_is_Some. unfold assign. by rewrite Hw.
Qed.

(** A new name that is no array index goes last. *)
Lemma assign_new_name k v o :
  k ∉ keysOf o → arrayIndex k = None → assign k v o = o ++ [(k, v)].
Proof.
  intros Hk%prop_None Hname. unfold assign. by rewrite Hk, Hname.
Qed.

Lemma prop_assign_eq k v o : prop k (assign k v o) = Some v.
Proof.
  destruct (decide (k ∈ keysOf o)) as [Hin|Hout].
  - rewrite assign_old by done. by apply prop_replaceProp_eq.
  - destruct (assign_new_split k v o Hout) as (o1 & o2 & -> & ->).
    rewrite prop_app. unfold keysOf in Hout.
    rewrite fmap_app, not_elem_of_app in Hout. destruct Hout as [Hout _].
    apply prop_None in Hout. rewrite Hout. simpl. by rewrite decide_True.
Qed.

Lemma prop_assign_ne k k' v o : k ≠ k' → prop k' (assign k v o) = prop k' o.
Proof.
  intros Hne. destruct (decide (k ∈ keysOf o)) as [Hin|Hout].
  - rewrite assign_old by done. by apply prop_replaceProp_ne.
  - destruct (assign_new_split k v o Hout) as (o1 & o2 & -> & ->).
    rewrite !prop_app. simpl. by rewrite decide_False.
Qed.

Lemma elem_of_assign k v o kv : kv ∈ assign k v o → kv = (k, v) ∨ kv ∈ o.
Proof.
  destruct (decide (k ∈ keysOf o)) as [Hin|Hout].
  - rewrite assign_old by done. apply elem_of_replaceProp.
  - destruct (assign_new_split k v o Hout) as (o1 & o2 & -> & ->).
    rewrite !elem_of_app, elem_of_cons. tauto.
Qed.

(** The names of the object after an assignment. *)
Lemma keysOf_assign k v o :
  keysOf (assign k v o)
  ≡ₚ if decide (k ∈ keysOf o) then keysOf o else k :: keysOf o.
Proof.
  case_decide as Hk.
  - by rewrite assign_old, keysOf_replaceProp.
  - destruct (assign_new_split k v o Hk) as (o1 & o2 & -> & ->).
    unfold keysOf. rewrite !fmap_app, fmap_cons. simpl.
    by rewrite Permutation_middle.
Qed.

Lemma elem_of_keysOf_assign k k' v o :
  k' ∈ keysOf (assign k v o) ↔ k' = k ∨ k' ∈ keysOf o.
Proof.
  rewrite keysOf_assign. case_decide as Hk.
  - split; [by right|]. by intros [->|?].
  - by rewrite elem_of_cons.
Qed.

Lemma NoDup_keysOf_assign k v o :
  NoDup (keysOf o) → NoDup (keysOf (assign k v o)).
Proof.
  intros Hnd. rewrite keysOf_assign. case_decide; [done|].
  by apply NoDup_cons.
Qed.
End AssignFacts.

(** ** The filter on the snapshot *)

Lemma stripDoc_date doc : stripDoc doc !! "date" = data doc !! "date".
Proof.
  unfold stripDoc. rewrite lookup_delete_ne by done.
  by rewrite lookup_insert_ne.
Qed.

Lemma stripDoc_key doc : stripDoc doc !! "key" = Some (VStr (id doc)).
Proof.
  unfold stripDoc. rewrite lookup_delete_ne by done.
  by rewrite lookup_insert_eq.
Qed.

Lemma stripDoc_uid doc : stripDoc doc !! "uid" = None.
Proof. unfold stripDoc. by rewrite lookup_delete_eq. Qed.

Lemma stripDoc_other doc (k : string) :
  k ≠ "uid" → k ≠ "key" → stripDoc doc !! k = data doc !! k.
Proof.
  intros ??. unfold stripDoc. rewrite lookup_delete_ne by done.
  by rewrite lookup_insert_ne.
Qed.

Lemma stripDoc_delete doc :
  stripDoc doc = <["key" := VStr (id doc)]> (delete "uid" (data doc)).
Proof. unfold stripDoc. by rewrite delete_insert_ne. Qed.

Lemma NoDup_fmap_eq {A B} (f : A → B) (l : list A) x y :
  NoDup (f <$> l) → x ∈ l → y ∈ l → f x = f y → x = y.
Proof.
  induction l as [|a l IH]; [by intros _ ?%elem_of_nil|].
  rewrite fmap_cons. intros [Ha Hnd]%NoDup_cons.
  intros [->|Hx]%elem_of_cons [->|Hy]%elem_of_cons Hf; [done| | |by apply IH].
  - destruct Ha. rewrite Hf. by apply list_elem_of_fmap_2.
  - destruct Ha. rewrite <-Hf. by apply list_elem_of_fmap_2.
Qed.

Section CollectFacts.
Variable E : ScheduleEnv.
Implicit Types (qs : QuerySnapshot) (acc : CollectionData) (doc : Doc).

Lemma collect_cons c doc qs acc :
  collect E c (doc :: qs) acc
  = collect E c qs
      (if bool_decide (c ≤ parseISO E (data doc !! "date"))
       then assign (id doc) (stripDoc doc) acc else acc).
Proof. unfold collect. simpl. by rewrite stripDoc_date. Qed.

Lemma elem_of_collect c qs acc k d :
  (k, d) ∈ collect E c qs acc →
  (k, d) ∈ acc
  ∨ ∃ doc, doc ∈ qs ∧ k = id doc ∧ d = stripDoc doc
           ∧ c ≤ parseISO E (data doc !! "date").
Proof.
  revert acc. induction qs as [|doc qs IH]; intros acc; [by left|].
  rewrite collect_cons. intros [Hin|(doc' & ? & ? & ? & ?)]%IH.
  - case_bool_decide as Hc; [|by left].
    apply elem_of_assign in Hin as [[= -> ->]|?]; [|by left].
    right. exists doc. split_and!; [by left|done..].
  - right. exists doc'. split_and!; [by right|done..].
Qed.

Lemma NoDup_collect c qs acc :
  NoDup (keysOf acc) → NoDup (keysOf (collect E c qs acc)).
Proof.
  revert acc. induction qs as [|doc qs IH]; intros acc Hnd; [done|].
  rewrite collect_cons. apply IH.
  case_bool_decide; [by apply NoDup_keysOf_assign|done].
Qed.

Lemma collect_prop_other c qs acc k :
  k ∉ id <$> qs → prop k (collect E c qs acc) = prop k acc.
Proof.
  revert acc. induction qs as [|doc qs IH]; intros acc; [done|].
  rewrite fmap_cons, not_elem_of_cons. intros [Hne Hk].
  rewrite collect_cons, IH by done.
  case_bool_decide; [by apply prop_assign_ne|done].
Qed.

Lemma collect_survives c qs acc doc :
  NoDup (id <$> qs) → doc ∈ qs → c ≤ parseISO E (data doc !! "date") →
  prop (id doc) (collect E c qs acc) = Some (stripDoc doc).
Proof.
  revert acc. induction qs as [|doc0 qs IH]; intros acc;
    [by intros _ ?%elem_of_nil|].
  rewrite fmap_cons. intros [Hfresh Hnd]%NoDup_cons Hin Hc.
  rewrite collect_cons.
  apply elem_of_cons in Hin as [->|Hin]; [|by apply IH].
  rewrite collect_prop_other by done.
  rewrite bool_decide_true by done. apply prop_assign_eq.
Qed.

Lemma collect_stale c qs acc doc :
  NoDup (id <$> qs) → doc ∈ qs → parseISO E (data doc !! "date") < c →
  id doc ∉ keysOf acc → prop (id doc) (collect E c qs acc) = None.
Proof.
  revert acc. induction qs as [|doc0 qs IH]; intros acc;
    [by intros _ ?%elem_of_nil|].
  rewrite fmap_cons. intros [Hfresh Hnd]%NoDup_cons Hin Hc Hacc.
  rewrite collect_cons.
  apply elem_of_cons in Hin as [->|Hin].
  - rewrite collect_prop_other by done.
    rewrite bool_decide_false by lia. by apply prop_None.
  - apply IH; [done..|].
    case_bool_decide; [|done].
    rewrite elem_of_keysOf_assign. intros [Heq|?]; [|done].
    apply Hfresh. rewrite <-Heq. by apply list_elem_of_fmap_2.
Qed.
End CollectFacts.

(** ** The walk over the groups *)

Section WalkFacts.
Variables (available : list Group) (cd : CollectionData).
Implicit Types (groups : list Group) (g : Group) (i j : nat) (index : Z).

Lemma elem_of_relevantKeysOf g key :
  key ∈ relevantKeysOf cd g ↔ matches cd g key.
Proof.
  unfold relevantKeysOf, matches.
  rewrite list_elem_of_In, filter_In, <-list_elem_of_In.
  split.
  - intros [_ Hm]. destruct (prop key cd) as [d|]; [by exists d|done].
  - intros (d & Hd & Hm). split; [|by rewrite Hd].
    apply prop_is_Some. by exists d.
Qed.

Lemma relevantKeysOf_nil g : relevantKeysOf cd g = [] ↔ ¬ claimed cd g.
Proof.
  split.
  - intros Hnil [key Hkey%elem_of_relevantKeysOf].
    rewrite Hnil in Hkey. by apply elem_of_nil in Hkey.
  - intros Hno. destruct (relevantKeysOf cd g) as [|key ks] eqn:Hks; [done|].
    destruct Hno. exists key. apply elem_of_relevantKeysOf.
    rewrite Hks. by left.
Qed.

Lemma walk_cons g groups i index orders :
  walk available cd (g :: groups) i index orders
  = if isAvailable available g
    then walk available cd groups (S i) (index + 1) orders
    else
      match relevantKeysOf cd g with
      | [] => walk available cd groups (S i) index orders
      | _ :: _ =>
          walk available cd groups (S i) index
            (orders
             ++ [(i, groupEntry cd g i index (relevantKeysOf cd g))])
      end.
Proof. reflexivity. Qed.

Lemma availableCount_cons g groups :
  availableCount available (g :: groups)
  = if isAvailable available g then S (availableCount available groups)
    else availableCount available groups.
Proof. unfold availableCount. simpl. by destruct (isAvailable available g). Qed.

Lemma availableCount_app groups groups' :
  availableCount available (groups ++ groups')
  = (availableCount available groups + availableCount available groups')%nat.
Proof.
  unfold availableCount. by rewrite List.filter_app, length_app.
Qed.

(** The accumulated object is only ever extended. *)
Lemma walk_app groups i index orders :
  walk available cd groups i index orders
  = ((walk available cd groups i index []).1,
     orders ++ (walk available cd groups i index []).2).
Proof.
  revert i index orders.
  induction groups as [|g groups IH]; intros i index orders.
  - simpl. by rewrite app_nil_r.
  - rewrite !walk_cons. destruct (isAvailable available g); [apply IH|].
    destruct (relevantKeysOf cd g) as [|key ks]; [apply IH|].
    rewrite IH, (IH _ _ ([] ++ _)). simpl. by rewrite <-app_assoc.
Qed.

(** The counter moves once for each available group, and for no
    other. *)
Lemma walk_counter groups i index orders :
  (walk available cd groups i index orders).1
  = index + Z.of_nat (availableCount available groups).
Proof.
  revert i index orders.
  induction groups as [|g groups IH]; intros i index orders.
  - simpl. unfold availableCount. simpl. lia.
  - rewrite walk_cons, availableCount_cons.
    destruct (isAvailable available g); [rewrite IH; lia|].
    destruct (relevantKeysOf cd g); by rewrite IH.
Qed.

Lemma placed_cons_skip g0 groups i index j e :
  isAvailable available g0 = true ∨ ¬ claimed cd g0 →
  placed available cd (g0 :: groups) i index j e ↔
  placed available cd groups (S i)
    (index + if isAvailable available g0 then 1 else 0) j e.
Proof.
  intros Hskip. unfold placed. split.
  - intros (g & Hle & Hg & Hav & Hcl & ->).
    destruct (decide (j = i)) as [->|Hne].
    { rewrite Nat.sub_diag in Hg. simplify_eq/=.
      destruct Hskip as [Hskip|Hskip]; [congruence|done]. }
    exists g. revert Hg.
    replace (j - i)%nat with (S (j - S i)) by lia. intros Hg.
    split_and!; [lia|done..|].
    rewrite firstn_cons, availableCount_cons. f_equal.
    destruct (isAvailable available g0); lia.
  - intros (g & Hle & Hg & Hav & Hcl & ->). exists g.
    replace (j - i)%nat with (S (j - S i)) by lia.
    split_and!; [lia|done..|].
    rewrite firstn_cons, availableCount_cons. f_equal.
    destruct (isAvailable available g0); lia.
Qed.

Lemma placed_cons_claimed g0 groups i index j e :
  isAvailable available g0 = false → claimed cd g0 →
  placed available cd (g0 :: groups) i index j e ↔
  (j, e) = (i, groupEntry cd g0 i index (relevantKeysOf cd g0))
  ∨ placed available cd groups (S i) index j e.
Proof.
  intros Hav0 Hcl0. unfold placed. split.
  - intros (g & Hle & Hg & Hav & Hcl & ->).
    destruct (decide (j = i)) as [->|Hne].
    + left. rewrite Nat.sub_diag in Hg |- *. simplify_eq/=.
      unfold availableCount. simpl. by rewrite Z.add_0_r.
    + right. exists g. revert Hg.
      replace (j - i)%nat with (S (j - S i)) by lia. intros Hg.
      split_and!; [lia|done..|].
      by rewrite firstn_cons, availableCount_cons, Hav0.
  - intros [[= -> ->]|(g & Hle & Hg & Hav & Hcl & ->)].
    + exists g0. rewrite Nat.sub_diag. split_and!; [done..|].
      simpl. unfold availableCount. simpl. by rewrite Z.add_0_r.
    + exists g. replace (j - i)%nat with (S (j - S i)) by lia.
      split_and!; [lia|done..|].
      by rewrite firstn_cons, availableCount_cons, Hav0.
Qed.

(** The group objects the walk adds. *)
Lemma elem_of_walk groups i index j e :
  (j, e) ∈ (walk available cd groups i index []).2 ↔
  placed available cd groups i index j e.
Proof.
  revert i index.
  induction groups as [|g0 groups IH]; intros i index.
  - simpl. split; [by intros ?%elem_of_nil|by intros (? & _ & ? & _)].
  - rewrite walk_cons.
    destruct (isAvailable available g0) eqn:Hav0.
    { rewrite IH, placed_cons_skip by (by left). by rewrite Hav0. }
    destruct (relevantKeysOf cd g0) as [|key ks] eqn:Hks.
    { apply relevantKeysOf_nil in Hks.
      rewrite IH, placed_cons_skip by (by right).
      by rewrite Hav0, Z.add_0_r. }
    assert (Hcl0 : claimed cd g0).
    { exists key. apply elem_of_relevantKeysOf. rewrite Hks. by left. }
    rewrite walk_app. cbn [snd app].
    rewrite elem_of_cons, IH, placed_cons_claimed by done.
    by rewrite Hks.
Qed.
End WalkFacts.

(** ** Group objects *)

Section EntryFacts.
Variable cd : CollectionData.
Implicit Types (ks : list string) (e : Entry) (g : Group).

Lemma addOrders_cons key ks e :
  addOrders cd (key :: ks) e
  = addOrders cd ks
      match prop key cd with
      | Some d => assign (propertyKey (d !! "date")) (EOrder d) e
      | None => e
      end.
Proof. reflexivity. Qed.

Lemma elem_of_addOrders ks e kv :
  kv ∈ addOrders cd ks e →
  kv ∈ e
  ∨ ∃ key d, key ∈ ks ∧ prop key cd = Some d
             ∧ kv = (propertyKey (d !! "date"), EOrder d).
Proof.
  revert e. induction ks as [|key ks IH]; intros e; [by left|].
  rewrite addOrders_cons.
  intros [Hin|(key' & d & ? & ? & ?)]%IH.
  - destruct (prop key cd) as [d|] eqn:Hd; [|by left].
    apply elem_of_assign in Hin as [->|?]; [|by left].
    right. exists key, d. split_and!; [by left|done..].
  - right. exists key', d. split_and!; [by right|done..].
Qed.

Lemma addOrders_prop_other ks e (k : string) :
  (∀ key d, key ∈ ks → prop key cd = Some d →
            propertyKey (d !! "date") ≠ k) →
  prop k (addOrders cd ks e) = prop k e.
Proof.
  revert e. induction ks as [|key ks IH]; intros e Hk; [done|].
  rewrite addOrders_cons, IH.
  - destruct (prop key cd) as [d|] eqn:Hd; [|done].
    apply prop_assign_ne. apply (Hk key); [by left|done].
  - intros key' d ?. apply Hk. by right.
Qed.

(** A property of a group object is the one it started with, or an
    order record. *)
Lemma addOrders_prop ks e (k : string) :
  prop k (addOrders cd ks e) = prop k e
  ∨ ∃ d, prop k (addOrders cd ks e) = Some (EOrder d).
Proof.
  revert e. induction ks as [|key ks IH]; intros e; [by left|].
  rewrite addOrders_cons.
  destruct (prop key cd) as [d|] eqn:Hd; [|apply IH].
  destruct (IH (assign (propertyKey (d !! "date")) (EOrder d) e))
    as [Heq|?]; [|by right].
  rewrite Heq. destruct (decide (propertyKey (d !! "date") = k)) as [<-|Hne].
  - right. exists d. apply prop_assign_eq.
  - left. by apply prop_assign_ne.
Qed.

Lemma matches_date g key d :
  prop key cd = Some d → includes g (d !! "date") = true →
  ∃ s, d !! "date" = Some (VStr s) ∧ s ∈ g.
Proof.
  intros _. unfold includes.
  destruct (d !! "date") as [[s| | | | |]|]; try done.
  intros ?%bool_decide_eq_true. by exists s.
Qed.

(** The fixed properties of a group object can be read back when the
    dates of the group are not their names. *)
Lemma groupEntry_fixed g i index (k : string) :
  Forall (fun s => s ∉ ["date"; "key"; "index"; "keys"]) g →
  k ∈ ["date"; "key"; "index"; "keys"] →
  prop k (groupEntry cd g i index (relevantKeysOf cd g))
  = prop k [("date", EDates g); ("key", ENum (Z.of_nat i));
            ("index", ENum index); ("keys", EKeys (relevantKeysOf cd g))].
Proof.
  intros Hplain Hk. unfold groupEntry. apply addOrders_prop_other.
  intros key d (d' & Hd' & Hinc)%elem_of_relevantKeysOf Hd.
  rewrite Hd in Hd'. injection Hd' as <-.
  destruct (matches_date _ _ _ Hd Hinc) as (s & -> & Hs).
  simpl. intros ->. rewrite Forall_forall in Hplain. by apply (Hplain k).
Qed.

Lemma groupDates_groupEntry g i index :
  Forall (fun s => s ∉ ["date"; "key"; "index"; "keys"]) g →
  groupDates (groupEntry cd g i index (relevantKeysOf cd g)) = g.
Proof.
  intros Hplain. unfold groupDates.
  rewrite groupEntry_fixed by (done || set_solver). done.
Qed.

Lemma entryIndex_groupEntry g i index :
  Forall (fun s => s ∉ ["date"; "key"; "index"; "keys"]) g →
  entryIndex (groupEntry cd g i index (relevantKeysOf cd g)) = Some index.
Proof.
  intros Hplain. unfold entryIndex.
  rewrite groupEntry_fixed by (done || set_solver). done.
Qed.

Lemma entryKeys_groupEntry g i index :
  Forall (fun s => s ∉ ["date"; "key"; "index"; "keys"]) g →
  entryKeys (groupEntry cd g i index (relevantKeysOf cd g))
  = relevantKeysOf cd g.
Proof.
  intros Hplain. unfold entryKeys.
  rewrite groupEntry_fixed by (done || set_solver). done.
Qed.

Lemma gv_key_groupEntry g i index :
  Forall (fun s => s ∉ ["date"; "key"; "index"; "keys"]) g →
  prop "key" (groupEntry cd g i index (relevantKeysOf cd g))
  = Some (ENum (Z.of_nat i)).
Proof.
  intros Hplain. rewrite groupEntry_fixed by (done || set_solver). done.
Qed.

(** Whatever the dates are, the keys a group object lists are relevant
    keys, and the records it holds are surviving records. *)
Lemma entryKeys_groupEntry_elem g i index ks key :
  key ∈ entryKeys (groupEntry cd g i index ks) → key ∈ ks.
Proof.
  unfold entryKeys, groupEntry.
  destruct (addOrders_prop ks
    [("date", EDates g); ("key", ENum (Z.of_nat i));
     ("index", ENum index); ("keys", EKeys ks)] "keys") as [->|[d ->]].
  - done.
  - by intros ?%elem_of_nil.
Qed.

Lemma entryRecords_groupEntry_elem g i index ks d :
  d ∈ entryRecords (groupEntry cd g i index ks) →
  ∃ key, key ∈ ks ∧ prop key cd = Some d.
Proof.
  unfold entryRecords. rewrite list_elem_of_omap.
  intros ([k v] & Hin & Hv). unfold groupEntry in Hin.
  apply elem_of_addOrders in Hin as [Hin|(key & d' & ? & ? & Heq)].
  - simpl in Hv.
    repeat (apply elem_of_cons in Hin as [[= -> ->]|Hin]; [done|]).
    by apply elem_of_nil in Hin.
  - simplify_eq/=. by exists key.
Qed.
End EntryFacts.

(** ** The reconciled state *)

Section Reconciled.
Variable E : ScheduleEnv.
Variables (now : Z) (qs : QuerySnapshot).
Variables (os : OrderSchedule E) (ls : LunchSchedule E).

Let cd := collectionDataOf E now qs os.
Let available := availableScheduleGroupsOf E now qs os ls.
Let all := allScheduleGroupsOf E now qs os ls.
Let start := initialIndex (includesCutoffOf E now available os ls).
Let out := updateOrders E now qs os ls.

Lemma NoDup_collectionData : NoDup (keysOf cd).
Proof. apply NoDup_collect. constructor. Qed.

Lemma collectionData_origin k d :
  prop k cd = Some d →
  ∃ doc, doc ∈ qs ∧ k = id doc ∧ d = stripDoc doc
         ∧ getCutoffDate E now os ≤ parseISO E (data doc !! "date").
Proof.
  intros Hin%prop_Some_elem_of.
  apply elem_of_collect in Hin as [Hin|?]; [|done].
  by apply elem_of_nil in Hin.
Qed.

(** The two shapes of the result. *)
Lemma updateOrders_custom :
  scheduleType E os = Some CUSTOM → cd ≠ [] →
  out = OrdersByGroup (walk available cd all 0%nat start []).2.
Proof.
  intros Hc Hne. unfold out, updateOrders. fold cd.
  rewrite (bool_decide_true _ Hc), bool_decide_false; [done|].
  unfold keysOf. by intros ?%fmap_nil_inv.
Qed.

Lemma updateOrders_plain :
  scheduleType E os ≠ Some CUSTOM ∨ cd = [] → out = OrdersById cd.
Proof.
  intros Hcase. unfold out, updateOrders. fold cd.
  destruct Hcase as [Hc| ->].
  - by rewrite (bool_decide_false _ Hc).
  - by rewrite andb_false_r.
Qed.

Lemma updateOrders_cases :
  (scheduleType E os = Some CUSTOM ∧ cd ≠ []
   ∧ out = OrdersByGroup (walk available cd all 0%nat start []).2)
  ∨ ((scheduleType E os ≠ Some CUSTOM ∨ cd = []) ∧ out = OrdersById cd).
Proof.
  destruct (decide (scheduleType E os = Some CUSTOM)) as [Hc|Hc].
  - destruct (decide (cd = [])) as [Hnil|Hne].
    + right. split; [by right|]. apply updateOrders_plain. by right.
    + left. split_and!; [done..|]. by apply updateOrders_custom.
  - right. split; [by left|]. apply updateOrders_plain. by left.
Qed.

Lemma elem_of_groupsOf j e :
  (j, e) ∈ groupsOf out ↔
  scheduleType E os = Some CUSTOM ∧ cd ≠ []
  ∧ placed available cd all 0 start j e.
Proof.
  destruct updateOrders_cases as [(Hc & Hne & ->)|(Hcase & ->)]; simpl.
  - rewrite elem_of_walk. tauto.
  - split; [by intros ?%elem_of_nil|]. intros (? & ? & _).
    destruct Hcase; done.
Qed.

(** Every id the state lists and every record it holds is a surviving
    one. *)
Lemma orderKeys_surviving k : k ∈ orderKeys out → k ∈ keysOf cd.
Proof.
  destruct updateOrders_cases as [(Hc & Hne & ->)|(Hcase & ->)]; simpl;
    [|done].
  rewrite list_elem_of_bind. intros ([j e] & Hk & Hin).
  apply elem_of_walk in Hin as (g & _ & _ & _ & _ & ->).
  apply entryKeys_groupEntry_elem, elem_of_relevantKeysOf in Hk
    as (d & Hd & _).
  apply prop_is_Some. by exists d.
Qed.

Lemma recordsOf_surviving d : d ∈ recordsOf out → ∃ k, prop k cd = Some d.
Proof.
  destruct updateOrders_cases as [(Hc & Hne & ->)|(Hcase & ->)]; simpl.
  - rewrite list_elem_of_bind. intros ([j e] & Hd & Hin).
    apply elem_of_walk in Hin as (g & _ & _ & _ & _ & ->).
    apply entryRecords_groupEntry_elem in Hd as (key & _ & ?).
    by exists key.
  - unfold valuesOf. rewrite list_elem_of_fmap. intros ([k d'] & -> & Hin).
    exists k. by apply elem_of_prop; [apply NoDup_collectionData|].
Qed.
End Reconciled.

(** ** The last date of the snapshot *)

Lemma fold_left_max_bounds (r : list Z) (d : Z) :
  d ≤ fold_left Z.max r d
  ∧ (∀ x, x ∈ r → x ≤ fold_left Z.max r d)
  ∧ (fold_left Z.max r d = d ∨ fold_left Z.max r d ∈ r).
Proof.
  revert d. induction r as [|y r IH]; intros d; simpl.
  - split_and!; [lia| |by left]. by intros x ?%elem_of_nil.
  - destruct (IH (Z.max d y)) as (Hd & Hr & Hin). split_and!.
    + lia.
    + intros x [->|Hx]%elem_of_cons; [lia|by apply Hr].
    + destruct Hin as [Heq|Hin]; [|right; by right].
      rewrite Heq. destruct (Z.max_spec d y) as [[_ ->]|[_ ->]];
        [right; by left|by left].
Qed.

Lemma moment_max_ge (now : Z) (l : list Z) (x : Z) :
  x ∈ l → x ≤ moment_max now l.
Proof.
  destruct l as [|d r]; [by intros ?%elem_of_nil|]. simpl.
  destruct (fold_left_max_bounds r d) as (Hd & Hr & _).
  intros [->|Hx]%elem_of_cons; [done|by apply Hr].
Qed.

Lemma moment_max_elem_of (now : Z) (l : list Z) :
  l ≠ [] → moment_max now l ∈ l.
Proof.
  destruct l as [|d r]; [done|]. intros _. simpl.
  destruct (fold_left_max_bounds r d) as (_ & _ & [->|Hin]);
    [by left|by right].
Qed.

(** The greatest element of a list is the greatest element of any of
    its sublists that holds an element above the ones left out. *)
Lemma moment_max_sub (now : Z) (l l' : list Z) :
  l' ≠ [] → (∀ x, x ∈ l' → x ∈ l) →
  (∀ x, x ∈ l → x ∈ l' ∨ ∃ y, y ∈ l' ∧ x ≤ y) →
  moment_max now l = moment_max now l'.
Proof.
  intros Hne Hsub Hdom.
  assert (Hl : l ≠ []).
  { destruct l' as [|y r]; [done|]. intros ->.
    specialize (Hsub y (list_elem_of_here _ _)). by apply elem_of_nil in Hsub. }
  apply Z.le_antisymm.
  - destruct (Hdom _ (moment_max_elem_of now l Hl)) as [Hin|(y & Hy & Hle)].
    + by apply moment_max_ge.
    + pose proof (moment_max_ge now l' y Hy). lia.
  - apply moment_max_ge, Hsub. by apply moment_max_elem_of.
Qed.

Section FreshFacts.
Variable E : ScheduleEnv.

Lemma elem_of_freshDocs c (qs : QuerySnapshot) doc :
  doc ∈ freshDocs E c qs ↔ doc ∈ qs ∧ c ≤ parseISO E (data doc !! "date").
Proof.
  unfold freshDocs.
  rewrite list_elem_of_In, filter_In, <-list_elem_of_In.
  by rewrite bool_decide_eq_true.
Qed.

Lemma collect_freshDocs c (qs : QuerySnapshot) acc :
  collect E c (freshDocs E c qs) acc = collect E c qs acc.
Proof.
  revert acc. induction qs as [|doc qs IH]; intros acc; [done|].
  rewrite collect_cons. unfold freshDocs. simpl. fold (freshDocs E c qs).
  case_bool_decide as Hc.
  - by rewrite collect_cons, bool_decide_true, IH.
  - apply IH.
Qed.

(** With a document that passes the filter, the last date of the
    snapshot is the last date of the documents that pass it, when the
    two readings of a date agree. *)
Lemma lastDate_freshDocs now c (qs : QuerySnapshot) :
  (∀ doc, doc ∈ qs →
          moment E (data doc !! "date") = parseISO E (data doc !! "date")) →
  freshDocs E c qs ≠ [] →
  lastDate E now qs = lastDate E now (freshDocs E c qs).
Proof.
  intros Hagree Hne. unfold lastDate. f_equal. apply moment_max_sub.
  - destruct (freshDocs E c qs); [done|discriminate].
  - intros x (doc & -> & [Hin _]%elem_of_freshDocs)%list_elem_of_fmap.
    by apply (list_elem_of_fmap_2 (fun doc => moment E (data doc !! "date"))).
  - intros x (doc & -> & Hin)%list_elem_of_fmap.
    destruct (decide (c ≤ parseISO E (data doc !! "date"))) as [Hc|Hc].
    + left.
      apply (list_elem_of_fmap_2 (fun doc => moment E (data doc !! "date"))).
      by apply elem_of_freshDocs.
    + right. destruct (freshDocs E c qs) as [|doc' r] eqn:Hfresh; [done|].
      assert (Hdoc' : doc' ∈ freshDocs E c qs) by (rewrite Hfresh; by left).
      apply elem_of_freshDocs in Hdoc' as [Hin' Hc'].
      exists (moment E (data doc' !! "date")). split; [by left|].
      rewrite (Hagree _ Hin), (Hagree _ Hin'). lia.
Qed.
End FreshFacts.

(** ** Stale records *)

(** C2.  In a snapshot whose documents have distinct ids, a document
    dated strictly before the cutoff date is excluded from the result
    entirely: it is not in [collectionData], the state does not list its
    id, and the state does not hold its record.  A document dated on or
    after the cutoff date survives the filter: [collectionData] holds
    its stripped data under its id.  The excluded documents count for
    nothing: when [moment] and [parseISO] read the dates of the snapshot
    alike, the state is the one of the snapshot without them. *)
Theorem stale_excluded_fresh_kept (E : ScheduleEnv) (now : Z)
    (qs : QuerySnapshot) (os : OrderSchedule E) (ls : LunchSchedule E) :
  NoDup (id <$> qs) →
  (∀ doc,
     doc ∈ qs → parseISO E (data doc !! "date") < getCutoffDate E now os →
     prop (id doc) (collectionDataOf E now qs os) = None
     ∧ (id doc ∉ orderKeys (updateOrders E now qs os ls))
     ∧ (stripDoc doc ∉ recordsOf (updateOrders E now qs os ls)))
  ∧ (∀ doc,
       doc ∈ qs → getCutoffDate E now os ≤ parseISO E (data doc !! "date") →
       prop (id doc) (collectionDataOf E now qs os) = Some (stripDoc doc))
  ∧ ((∀ doc, doc ∈ qs →
             moment E (data doc !! "date") = parseISO E (data doc !! "date")) →
     updateOrders E now qs os ls
     = updateOrders E now (freshDocs E (getCutoffDate E now os) qs) os ls).
Proof.
  intros Hnd. split_and!.
  - intros doc Hin Hstale.
    assert (Hnone : prop (id doc) (collectionDataOf E now qs os) = None).
    { apply collect_stale; [done..|apply not_elem_of_nil]. }
    split_and!; [done| |].
    + intros Hk%orderKeys_surviving. by apply prop_None in Hnone.
    + intros [k Hk]%recordsOf_surviving.
      destruct (collectionData_origin _ _ _ _ _ _ Hk)
        as (doc' & Hin' & -> & Hstrip & Hfresh).
      assert (id doc = id doc').
      { pose proof (stripDoc_key doc) as Hkey.
        rewrite Hstrip, stripDoc_key in Hkey. congruence. }
      assert (doc = doc') as <- by by eapply (NoDup_fmap_eq id).
      lia.
  - intros doc Hin Hfresh. by apply collect_survives.
  - intros Hagree.
    assert (Hcd : collectionDataOf E now (freshDocs E (getCutoffDate E now os) qs) os
                  = collectionDataOf E now qs os)
      by apply collect_freshDocs.
    destruct (decide (collectionDataOf E now qs os = [])) as [Hnil|Hne].
    { rewrite !updateOrders_plain; [by rewrite Hcd|right..]; [|done].
      by rewrite Hcd. }
    assert (Hfresh : freshDocs E (getCutoffDate E now os) qs ≠ []).
    { intros Hnil. destruct Hne. rewrite <-Hcd, Hnil. done. }
    unfold updateOrders, availableScheduleGroupsOf, allScheduleGroupsOf.
    by rewrite Hcd, <-(lastDate_freshDocs E now _ qs Hagree Hfresh).
Qed.

(** The theorem at a snapshot of the calendar: on 3 March the order
    for the 2nd is dropped and the order for the 5th is kept. *)
Lemma stale_excluded_fresh_kept_witness :
  (("a" ∉ orderKeys
            (updateOrders Calendar.env 50 Calendar.secondAndFifth
               Calendar.daily Calendar.tenDays))
   ∧ (stripDoc (Calendar.order "a" "u1" 2)
      ∉ recordsOf
          (updateOrders Calendar.env 50 Calendar.secondAndFifth
             Calendar.daily Calendar.tenDays)))
  ∧ prop "b"
      (collectionDataOf Calendar.env 50 Calendar.secondAndFifth Calendar.daily)
    = Some (stripDoc (Calendar.order "b" "u1" 5))
  ∧ updateOrders Calendar.env 50 Calendar.secondAndFifth Calendar.daily
      Calendar.tenDays
    = updateOrders Calendar.env 50 [Calendar.order "b" "u1" 5] Calendar.daily
        Calendar.tenDays.
Proof.
  assert (Hnd : NoDup (id <$> Calendar.secondAndFifth)).
  { apply (bool_decide_unpack _). vm_compute. exact I. }
  destruct (stale_excluded_fresh_kept Calendar.env 50 Calendar.secondAndFifth
              Calendar.daily Calendar.tenDays Hnd) as (Hstale & Hfresh & Hsame).
  destruct (Hstale (Calendar.order "a" "u1" 2)) as (_ & Hkey & Hrecord).
  { by left. }
  { vm_compute. reflexivity. }
  split_and!; [exact Hkey|exact Hrecord| |].
  - apply (Hfresh (Calendar.order "b" "u1" 5)).
    + right. by left.
    + vm_compute. discriminate.
  - apply Hsame. intros doc _. reflexivity.
Defined.

(** ** Claimed groups only *)

(** C9.  Under a CUSTOM schedule the state is empty or made of group
    objects; every group object stands under the position of a claimed
    group (a group in which some surviving record lies), and the
    position of a group with no such record is not in the state. *)
Theorem entries_only_for_claimed (E : ScheduleEnv) (now : Z)
    (qs : QuerySnapshot) (os : OrderSchedule E) (ls : LunchSchedule E) :
  scheduleType E os = Some CUSTOM →
  (∀ cd', updateOrders E now qs os ls = OrdersById cd' → cd' = [])
  ∧ (∀ i e,
       (i, e) ∈ groupsOf (updateOrders E now qs os ls) →
       ∃ g, allScheduleGroupsOf E now qs os ls !! i = Some g
            ∧ claimed (collectionDataOf E now qs os) g)
  ∧ (∀ i g,
       allScheduleGroupsOf E now qs os ls !! i = Some g →
       ¬ claimed (collectionDataOf E now qs os) g →
       i ∉ (groupsOf (updateOrders E now qs os ls)).*1).
Proof.
  intros Hc.
  assert (Hentry : ∀ i e,
    (i, e) ∈ groupsOf (updateOrders E now qs os ls) →
    ∃ g, allScheduleGroupsOf E now qs os ls !! i = Some g
         ∧ claimed (collectionDataOf E now qs os) g).
  { intros i e (_ & _ & g & _ & Hg & _ & Hcl & _)%elem_of_groupsOf.
    rewrite Nat.sub_0_r in Hg. by exists g. }
  split_and!; [|done|].
  - intros cd' Hout.
    destruct (updateOrders_cases E now qs os ls)
      as [(_ & _ & Heq)|([?| Hnil] & Heq)]; [congruence|done|].
    rewrite Heq in Hout. injection Hout as <-. done.
  - intros i g Hg Hno. rewrite list_elem_of_fmap. intros ([i' e] & -> & Hin).
    destruct (Hentry _ _ Hin) as (g' & Hg' & Hcl). simpl in Hg.
    rewrite Hg in Hg'. by injection Hg' as <-.
Qed.

(** The theorem on the calendar: an order for the 8th, read on the 1st;
    the group of the 6th to the 8th is in the state and the group of
    the 1st to the 5th is not. *)
Lemma entries_only_for_claimed_witness :
  (groupsOf
     (updateOrders Calendar.env 0 [Calendar.order "a" "u1" 8]
        (Calendar.custom 12) Calendar.tenDays)).*1 = [1%nat]
  ∧ ∀ i e,
      (i, e) ∈ groupsOf
        (updateOrders Calendar.env 0 [Calendar.order "a" "u1" 8]
           (Calendar.custom 12) Calendar.tenDays) →
      ∃ g, allScheduleGroupsOf Calendar.env 0 [Calendar.order "a" "u1" 8]
             (Calendar.custom 12) Calendar.tenDays !! i = Some g
           ∧ claimed
               (collectionDataOf Calendar.env 0 [Calendar.order "a" "u1" 8]
                  (Calendar.custom 12)) g.
Proof.
  split; [by vm_compute|].
  apply (entries_only_for_claimed Calendar.env 0 [Calendar.order "a" "u1" 8]
           (Calendar.custom 12) Calendar.tenDays).
  reflexivity.
Defined.

(** ** No data *)

(** C6.  The reconciler has a result in each of the "no data" cases.
    An empty snapshot gives the empty state, in which no group is
    claimed.  Under a CUSTOM schedule, an empty group sequence gives a
    state with no group object, and a surviving record whose date lies
    in no group of the sequence is left out: the state neither lists
    its id nor holds it. *)
Theorem no_data_is_no_error (E : ScheduleEnv) (now : Z)
    (os : OrderSchedule E) (ls : LunchSchedule E) :
  updateOrders E now [] os ls = OrdersById []
  ∧ (∀ qs,
       scheduleType E os = Some CUSTOM →
       allScheduleGroupsOf E now qs os ls = [] →
       updateOrders E now qs os ls = OrdersByGroup []
       ∨ updateOrders E now qs os ls = OrdersById [])
  ∧ (∀ qs k d,
       scheduleType E os = Some CUSTOM →
       prop k (collectionDataOf E now qs os) = Some d →
       (∀ g, g ∈ allScheduleGroupsOf E now qs os ls →
             includes g (d !! "date") = false) →
       (k ∉ orderKeys (updateOrders E now qs os ls))
       ∧ (d ∉ recordsOf (updateOrders E now qs os ls))).
Proof.
  split_and!.
  - unfold updateOrders. simpl. by rewrite andb_false_r.
  - intros qs Hc Hall.
    destruct (updateOrders_cases E now qs os ls)
      as [(_ & _ & Heq)|([?| Hnil] & Heq)]; [|done|].
    + left. rewrite Heq, Hall. done.
    + right. by rewrite Heq, Hnil.
  - intros qs k d Hc Hk Horphan.
    assert (Hne : collectionDataOf E now qs os ≠ []).
    { intros Hnil. by rewrite Hnil in Hk. }
    rewrite (updateOrders_custom E now qs os ls Hc Hne). simpl.
    split.
    + rewrite list_elem_of_bind. intros ([j e] & Hin & Hwalk).
      apply elem_of_walk in Hwalk as (g & _ & Hg & _ & _ & ->).
      apply entryKeys_groupEntry_elem, elem_of_relevantKeysOf in Hin
        as (d' & Hd' & Hinc).
      rewrite Hk in Hd'. injection Hd' as <-.
      rewrite Horphan in Hinc; [done|]. by eapply list_elem_of_lookup_2.
    + rewrite list_elem_of_bind. intros ([j e] & Hin & Hwalk).
      apply elem_of_walk in Hwalk as (g & _ & Hg & _ & _ & ->).
      apply entryRecords_groupEntry_elem in Hin as (key & Hkey & Hd).
      apply elem_of_relevantKeysOf in Hkey as (d' & Hd' & Hinc).
      rewrite Hd in Hd'. injection Hd' as <-.
      rewrite Horphan in Hinc; [done|]. by eapply list_elem_of_lookup_2.
Qed.

(** The theorem on the calendar.  With lunch on the 1st, 2nd, 3rd, 5th
    and 6th in groups of two, an order for the 4th lies in no group and
    is left out; with no lunch day at all the state has no group
    object. *)
Lemma no_data_is_no_error_witness :
  updateOrders Calendar.env 0 [] (Calendar.custom 12) Calendar.sparseDays
  = OrdersById []
  ∧ (updateOrders Calendar.env 0 Calendar.fourthAndFifth (Calendar.custom 12)
       Calendar.noDays = OrdersByGroup []
     ∨ updateOrders Calendar.env 0 Calendar.fourthAndFifth
         (Calendar.custom 12) Calendar.noDays = OrdersById [])
  ∧ ("a" ∉ orderKeys
             (updateOrders Calendar.env 0 Calendar.fourthAndFifth
                (Calendar.custom 12) Calendar.sparseDays))
  ∧ orderKeys
      (updateOrders Calendar.env 0 Calendar.fourthAndFifth
         (Calendar.custom 12) Calendar.sparseDays) = ["b"].
Proof.
  split_and!.
  - apply (no_data_is_no_error Calendar.env 0 (Calendar.custom 12)
             Calendar.sparseDays).
  - apply (no_data_is_no_error Calendar.env 0 (Calendar.custom 12)
             Calendar.noDays).
    + reflexivity.
    + vm_compute. reflexivity.
  - refine (proj1 (proj2 (proj2
      (no_data_is_no_error Calendar.env 0 (Calendar.custom 12)
         Calendar.sparseDays))
      Calendar.fourthAndFifth "a" (stripDoc (Calendar.order "a" "u1" 4))
      _ _ _)).
    + reflexivity.
    + vm_compute. reflexivity.
    + apply Forall_forall. apply (bool_decide_unpack _). vm_compute. exact I.
  - vm_compute. reflexivity.
Defined.

(** ** The availability counter *)

Lemma initialIndex_cases (E : ScheduleEnv) (now : Z)
    (available : list Group) (os : OrderSchedule E)
    (ls : LunchSchedule E) :
  (initialIndex (includesCutoffOf E now available os ls) = -1 ↔
   ∃ g rest, available = g :: rest ∧ isBeforeCutoff E now g os ls = false)
  ∧ (initialIndex (includesCutoffOf E now available os ls) = 0 ↔
     available = []
     ∨ ∃ g rest, available = g :: rest ∧ isBeforeCutoff E now g os ls = true).
Proof.
  destruct available as [|g rest]; simpl.
  - split; (split; [|intros H]); try done.
    + by destruct H as (? & ? & ? & _).
    + by left.
  - destruct (isBeforeCutoff E now g os ls) eqn:Hb; simpl.
    + split; (split; [|intros H]); try done.
      * destruct H as (? & ? & ? & ?). simplify_eq. congruence.
      * right. by exists g, rest.
    + split; (split; [|intros H]); try done.
      * by exists g, rest.
      * destruct H as [?|(? & ? & ? & ?)]; [done|]. simplify_eq. congruence.
Qed.

(** C1, as the code has it.  Under a CUSTOM schedule with a surviving
    record the state is the result of the walk over all groups with the
    counter started at -1 exactly when there is an available group and
    the first of them is past its cutoff, and at 0 otherwise, also when
    no group is available.  The counter moves by one for each walked
    group whose first date is the first date of an available group and
    for no other, and the group object of a claimed group records the
    counter's value at its turn. *)
Theorem counter_start_and_steps (E : ScheduleEnv) (now : Z)
    (qs : QuerySnapshot) (os : OrderSchedule E) (ls : LunchSchedule E) :
  scheduleType E os = Some CUSTOM →
  collectionDataOf E now qs os ≠ [] →
  let cd := collectionDataOf E now qs os in
  let available := availableScheduleGroupsOf E now qs os ls in
  let all := allScheduleGroupsOf E now qs os ls in
  let start := initialIndex (includesCutoffOf E now available os ls) in
  updateOrders E now qs os ls
  = OrdersByGroup (walk available cd all 0%nat start []).2
  ∧ (start = -1 ↔
     ∃ g rest, available = g :: rest
               ∧ isBeforeCutoff E now g os ls = false)
  ∧ (start = 0 ↔
     available = []
     ∨ ∃ g rest, available = g :: rest
                 ∧ isBeforeCutoff E now g os ls = true)
  ∧ (∀ groups i index orders,
       (walk available cd groups i index orders).1
       = index + Z.of_nat (availableCount available groups))
  ∧ (∀ j e,
       (j, e) ∈ groupsOf (updateOrders E now qs os ls) →
       ∃ g, all !! j = Some g
            ∧ e = groupEntry cd g j
                    (start + Z.of_nat (availableCount available (take j all)))
                    (relevantKeysOf cd g)
            ∧ (Forall (fun s => s ∉ ["date"; "key"; "index"; "keys"]) g →
               entryIndex e
               = Some
                   (start
                    + Z.of_nat (availableCount available (take j all))))).
Proof.
  intros Hc Hne cd available all start.
  split_and!.
  - by apply updateOrders_custom.
  - apply initialIndex_cases.
  - apply initialIndex_cases.
  - apply walk_counter.
  - intros j e (_ & _ & g & _ & Hg & _ & _ & ->)%elem_of_groupsOf.
    rewrite Nat.sub_0_r in Hg |- *. exists g. split_and!; [done..|].
    apply entryIndex_groupEntry.
Qed.

(** The theorem on the calendar, lunch on the first fifteen days in
    groups of five, groups closing five days ahead.  At noon of the 5th
    with orders for the 5th and the 15th, the group of the 10th is
    available and closed: the counter starts at -1, the group of the
    5th records -1 and the group of the 15th records 0. *)
Lemma counter_start_and_steps_witness :
  initialIndex
    (includesCutoffOf Calendar.env 108
       (availableScheduleGroupsOf Calendar.env 108 Calendar.fifthAndFifteenth
          (Calendar.custom 120) Calendar.fifteenDays)
       (Calendar.custom 120) Calendar.fifteenDays) = -1
  ∧ map (fun ie => (ie.1, entryIndex ie.2))
      (groupsOf
         (updateOrders Calendar.env 108 Calendar.fifthAndFifteenth
            (Calendar.custom 120) Calendar.fifteenDays))
    = [(0%nat, Some (-1)); (2%nat, Some 0)].
Proof.
  assert (Hne : collectionDataOf Calendar.env 108 Calendar.fifthAndFifteenth
                  (Calendar.custom 120) ≠ []).
  { intros Hnil%(f_equal length). vm_compute in Hnil. discriminate. }
  destruct (counter_start_and_steps Calendar.env 108
              Calendar.fifthAndFifteenth (Calendar.custom 120)
              Calendar.fifteenDays eq_refl Hne) as (Hout & Hstart & _).
  split.
  - apply Hstart. eexists _, _. split; vm_compute; reflexivity.
  - rewrite Hout. vm_compute. reflexivity.
Defined.

(** C1 as worded fails where no group is available: on the calendar, an
    order for the 3rd read on the 1st leaves no available group up to
    the 3rd, no available group is open, and the counter starts at 0,
    which the claimed group records. *)
Lemma counter_start_counterexample :
  scheduleType Calendar.env (Calendar.custom 12) = Some CUSTOM
  ∧ keysOf
      (collectionDataOf Calendar.env 0 [Calendar.order "a" "u1" 3]
         (Calendar.custom 12)) = ["a"]
  ∧ availableScheduleGroupsOf Calendar.env 0 [Calendar.order "a" "u1" 3]
      (Calendar.custom 12) Calendar.tenDays = []
  ∧ map (fun ie => (ie.1, entryIndex ie.2))
      (groupsOf
         (updateOrders Calendar.env 0 [Calendar.order "a" "u1" 3]
            (Calendar.custom 12) Calendar.tenDays))
    = [(0%nat, Some 0)]
  ∧ ¬ startsAsStated Calendar.env 0 [Calendar.order "a" "u1" 3]
        (Calendar.custom 12) Calendar.tenDays.
Proof.
  split_and!; try (vm_compute; reflexivity).
  unfold startsAsStated. vm_compute. discriminate.
Qed.

(** ** Claimed groups and their records *)






(** ** The uid of a record *)

Section UidFacts.
Variable E : ScheduleEnv.

Lemma sameButUid_cons doc1 doc2 (qs1 qs2 : QuerySnapshot) :
  sameButUid (doc1 :: qs1) (doc2 :: qs2) →
  id doc1 = id doc2 ∧ stripDoc doc1 = stripDoc doc2
  ∧ data doc1 !! "date" = data doc2 !! "date" ∧ sameButUid qs1 qs2.
Proof.
  unfold sameButUid. simpl. intros [= Hid Hdata Hrest].
  assert (Hstrip : stripDoc doc1 = stripDoc doc2).
  { by rewrite !stripDoc_delete, Hid, Hdata. }
  split_and!; [done..| |done].
  by rewrite <-!stripDoc_date, Hstrip.
Qed.

Lemma collect_sameButUid c (qs1 qs2 : QuerySnapshot) acc :
  sameButUid qs1 qs2 → collect E c qs1 acc = collect E c qs2 acc.
Proof.
  revert qs2 acc. induction qs1 as [|doc1 qs1 IH]; intros [|doc2 qs2] acc;
    try done.
  intros (Hid & Hstrip & Hdate & Hrest)%sameButUid_cons.
  rewrite !collect_cons, Hid, Hstrip, Hdate. by apply IH.
Qed.

Lemma dates_sameButUid (qs1 qs2 : QuerySnapshot) :
  sameButUid qs1 qs2 →
  map (fun doc => moment E (data doc !! "date")) qs1
  = map (fun doc => moment E (data doc !! "date")) qs2.
Proof.
  revert qs2. induction qs1 as [|doc1 qs1 IH]; intros [|doc2 qs2]; try done.
  intros (_ & _ & Hdate & Hrest)%sameButUid_cons.
  simpl. rewrite Hdate. f_equal. by apply IH.
Qed.
End UidFacts.

(** C8.  No order record of the state has a [uid] property, and two
    snapshots that differ only in the [uid] of their records give the
    same state. *)
Theorem uid_stripped (E : ScheduleEnv) (now : Z) (qs : QuerySnapshot)
    (os : OrderSchedule E) (ls : LunchSchedule E) :
  (∀ d, d ∈ recordsOf (updateOrders E now qs os ls) → d !! "uid" = None)
  ∧ (∀ qs',
       sameButUid qs qs' →
       updateOrders E now qs os ls = updateOrders E now qs' os ls).
Proof.
  split.
  - intros d [k Hk]%recordsOf_surviving.
    destruct (collectionData_origin _ _ _ _ _ _ Hk) as (doc & _ & _ & -> & _).
    apply stripDoc_uid.
  - intros qs' Hsame.
    assert (Hcd : collectionDataOf E now qs os = collectionDataOf E now qs' os)
      by by apply collect_sameButUid.
    assert (Hlast : lastDate E now qs = lastDate E now qs').
    { unfold lastDate. by rewrite (dates_sameButUid E qs qs'). }
    unfold updateOrders, availableScheduleGroupsOf, allScheduleGroupsOf.
    by rewrite Hcd, Hlast.
Qed.

(** The theorem on the calendar: the same two orders under two
    different users. *)
Lemma uid_stripped_witness :
  updateOrders Calendar.env 0
    [Calendar.order "a" "u1" 3; Calendar.order "b" "u1" 8]
    (Calendar.custom 12) Calendar.tenDays
  = updateOrders Calendar.env 0
      [Calendar.order "a" "u2" 3; Calendar.order "b" "u3" 8]
      (Calendar.custom 12) Calendar.tenDays.
Proof.
  apply (uid_stripped Calendar.env 0
           [Calendar.order "a" "u1" 3; Calendar.order "b" "u1" 8]
           (Calendar.custom 12) Calendar.tenDays).
  vm_compute. reflexivity.
Defined.

(** ** The clock *)

(** [updateOrders] is given the snapshot and the two schedules only
    and reads the clock itself.  On the calendar the same snapshot and
    schedules give the order for the 8th under position 1 when read on
    the 1st and under position 0 when read on the 6th. *)
Lemma clock_reading_matters :
  (groupsOf
     (updateOrders Calendar.env 0 [Calendar.order "a" "u1" 8]
        (Calendar.custom 12) Calendar.tenDays)).*1 = [1%nat]
  ∧ (groupsOf
       (updateOrders Calendar.env 120 [Calendar.order "a" "u1" 8]
          (Calendar.custom 12) Calendar.tenDays)).*1 = [0%nat]
  ∧ ¬ clockNotRead Calendar.env [Calendar.order "a" "u1" 8]
        (Calendar.custom 12) Calendar.tenDays.
Proof.
  split_and!; [vm_compute; reflexivity..|].
  intros Hsame. specialize (Hsame 0 120).
  apply (f_equal (fun o => (groupsOf o).*1)) in Hsame.
  vm_compute in Hsame. discriminate.
Qed.

(** ** The order of the groups *)

Section SortFacts.
Context {A : Type} (compare : A → A → Z).

Lemma sortBy_sorted (l : list A) :
  StronglySorted (fun x y => compare x y ≤ 0) l → sortBy compare l = l.
Proof.
  induction 1 as [|x l Hl IH Hx]; [done|].
  simpl. fold (sortBy compare l). rewrite IH.
  destruct Hx as [|y r Hxy _]; [done|].
  simpl. by rewrite bool_decide_true.
Qed.

Lemma elem_of_insertSorted (x y : A) (l : list A) :
  y ∈ insertSorted compare x l ↔ y = x ∨ y ∈ l.
Proof.
  induction l as [|z l IH]; simpl.
  - rewrite list_elem_of_singleton, elem_of_nil. tauto.
  - case_bool_decide; rewrite !elem_of_cons; [done|].
    rewrite IH. tauto.
Qed.

Lemma elem_of_sortBy (y : A) (l : list A) : y ∈ sortBy compare l ↔ y ∈ l.
Proof.
  induction l as [|x l IH]; [done|].
  simpl. fold (sortBy compare l).
  by rewrite elem_of_insertSorted, IH, elem_of_cons.
Qed.
End SortFacts.

Lemma StronglySorted_with {A} (P : A → Prop) (R : relation A) (l : list A) :
  Forall P l → StronglySorted R l →
  StronglySorted (fun x y => P x ∧ P y ∧ R x y) l.
Proof.
  intros HP. induction 1 as [|x l Hl IH Hx]; constructor.
  - apply IH. by apply Forall_cons in HP as [_ ?].
  - apply Forall_cons in HP as [Hpx HP].
    rewrite Forall_forall in Hx, HP |- *. intros y Hy.
    split_and!; [done|by apply HP|by apply Hx].
Qed.

Lemma StronglySorted_trivial {A} (l : list A) :
  StronglySorted (fun _ _ => True) l.
Proof. induction l; constructor; [done|]. by apply Forall_forall. Qed.

Lemma getOrdersArr_groups (E : ScheduleEnv) (l : list (nat * Entry)) :
  getOrdersArr E (OrdersByGroup l) true
  = Some (GroupItem <$> getOrdersArr_dynamic E l).
Proof. by destruct l. Qed.

Lemma getOrdersArr_orders (E : ScheduleEnv) (cd : CollectionData) :
  getOrdersArr E (OrdersById cd) false
  = Some (OrderItem <$> getOrdersArr_static E cd).
Proof. by destruct cd. Qed.

(** The walk keeps an order of the groups, read on the group objects. *)
Lemma walk_StronglySorted (available : list Group) (cd : CollectionData)
    (Rg : relation Group) (Re : relation (nat * Entry))
    (groups : list Group) (i : nat) (index : Z) :
  (∀ i j g g' idx idx',
     (i < j)%nat → Rg g g' →
     Re (i, groupEntry cd g i idx (relevantKeysOf cd g))
        (j, groupEntry cd g' j idx' (relevantKeysOf cd g'))) →
  StronglySorted Rg groups →
  StronglySorted Re (walk available cd groups i index []).2.
Proof.
  intros Hrel Hsorted. revert i index.
  induction Hsorted as [|g0 groups Hgroups IH Hg0]; intros i index.
  - constructor.
  - rewrite walk_cons. destruct (isAvailable available g0); [apply IH|].
    destruct (relevantKeysOf cd g0) as [|key ks] eqn:Hks; [apply IH|].
    rewrite walk_app. cbn [snd app]. constructor; [apply IH|].
    apply Forall_forall. intros [j e] (g & Hle & Hg & _ & _ & ->)%elem_of_walk.
    rewrite <-Hks. apply Hrel; [lia|].
    rewrite Forall_forall in Hg0. apply Hg0.
    by eapply list_elem_of_lookup_2.
Qed.

(** C5.  Under a CUSTOM schedule, over a group sequence in
    chronological order whose dates are not names of the fixed
    properties: the group objects of the state stand under increasing
    positions of the sequence, each holding the dates of the group at
    its position; [getOrdersArr] lists them in that same order; and that
    order runs from the soonest first date to the farthest. *)
Theorem group_order_preserved (E : ScheduleEnv) (now : Z)
    (qs : QuerySnapshot) (os : OrderSchedule E) (ls : LunchSchedule E) :
  scheduleType E os = Some CUSTOM →
  plainDates (allScheduleGroupsOf E now qs os ls) →
  chronological E (allScheduleGroupsOf E now qs os ls) →
  let entries := groupsOf (updateOrders E now qs os ls) in
  StronglySorted lt entries.*1
  ∧ (∀ j e,
       (j, e) ∈ entries →
       ∃ g, allScheduleGroupsOf E now qs os ls !! j = Some g
            ∧ groupDates e = g
            ∧ prop "key" e = Some (ENum (Z.of_nat j)))
  ∧ getOrdersArr E (updateOrders E now qs os ls) true
    = Some (GroupItem <$> map (groupView E) (valuesOf entries))
  ∧ soonestFirst E (valuesOf entries).
Proof.
  intros Hc Hplain Hchron entries.
  assert (Hplain_at : ∀ j g,
    allScheduleGroupsOf E now qs os ls !! j = Some g →
    Forall (fun s => s ∉ ["date"; "key"; "index"; "keys"]) g).
  { intros j g Hg. unfold plainDates in Hplain.
    rewrite Forall_forall in Hplain. apply Hplain.
    by eapply list_elem_of_lookup_2. }
  assert (Hsoon : soonestFirst E (valuesOf entries)).
  { unfold entries.
    destruct (updateOrders_cases E now qs os ls)
      as [(_ & _ & ->)|(_ & ->)]; [|constructor].
    simpl. unfold soonestFirst, valuesOf.
    eapply (StronglySorted_fmap snd
      (fun a b => compareDates E (firstDate a.2) (firstDate b.2) ≤ 0));
      [done|].
    eapply walk_StronglySorted;
      [|by apply (StronglySorted_with _ _ _ Hplain Hchron)].
    intros i j g g' idx idx' _ (Hg & Hg' & Hle). simpl.
    unfold firstDate. by rewrite !groupDates_groupEntry. }
  split_and!; [| | |done].
  - unfold entries.
    destruct (updateOrders_cases E now qs os ls)
      as [(_ & _ & ->)|(_ & ->)]; [|constructor].
    simpl.
    eapply (StronglySorted_fmap fst (fun a b => (a.1 < b.1)%nat)); [done|].
    eapply walk_StronglySorted; [|apply StronglySorted_trivial].
    by intros i j g g' idx idx' ? _.
  - intros j e (_ & _ & g & _ & Hg & _ & _ & ->)%elem_of_groupsOf.
    rewrite Nat.sub_0_r in Hg. exists g. split_and!; [done| |].
    + apply groupDates_groupEntry. by eapply Hplain_at.
    + apply gv_key_groupEntry. by eapply Hplain_at.
  - revert Hsoon. unfold entries.
    destruct (updateOrders_cases E now qs os ls)
      as [(_ & _ & ->)|([?| ->] & ->)]; [|done..].
    simpl groupsOf. intros Hsoon.
    rewrite getOrdersArr_groups. unfold getOrdersArr_dynamic.
    by rewrite sortBy_sorted.
Qed.

(** The theorem on the calendar of fifteen days, read at noon of the
    5th: the groups of the 5th and of the 15th are listed in this
    order. *)
Lemma group_order_preserved_witness :
  (groupsOf
     (updateOrders Calendar.env 108 Calendar.fifthAndFifteenth
        (Calendar.custom 120) Calendar.fifteenDays)).*1 = [0%nat; 2%nat]
  ∧ getOrdersArr Calendar.env
      (updateOrders Calendar.env 108 Calendar.fifthAndFifteenth
         (Calendar.custom 120) Calendar.fifteenDays) true
    = Some
        (GroupItem
         <$> map (groupView Calendar.env)
               (valuesOf
                  (groupsOf
                     (updateOrders Calendar.env 108
                        Calendar.fifthAndFifteenth (Calendar.custom 120)
                        Calendar.fifteenDays)))).
Proof.
  split; [vm_compute; reflexivity|].
  apply (group_order_preserved Calendar.env 108 Calendar.fifthAndFifteenth
           (Calendar.custom 120) Calendar.fifteenDays).
  - reflexivity.
  - apply (bool_decide_unpack _). vm_compute. exact I.
  - apply (bool_decide_unpack _). vm_compute. exact I.
Defined.

(** ** The tap on a group card *)

(** The items of a dynamic schedule carry no index, so a tap on one of
    them never meets the alert. *)
Lemma pressItem_group (dynamicMenu : bool) (group : GroupView) :
  pressItem dynamicMenu (GroupItem group)
  = [FocusOrder (inr (gv_key group)); Navigate "Order" "Custom Order"].
Proof. reflexivity. Qed.

(** ** Dependent lunch schedules *)

(** The loader of the constants does nothing for a dependent lunch
    schedule: the constants come back as they were read. *)
Lemma finishStateConstants_id {Constants : Type}
    (dependentLunchSchedule : Constants → bool) (constants : Constants) :
  finishStateConstants dependentLunchSchedule constants = constants.
Proof.
  unfold finishStateConstants. by destruct (dependentLunchSchedule constants).
Qed.

(** C7.  For a dependent lunch schedule and a user whose value of the
    attribute has no sub-configuration, the resolution fails with
    [UnresolvedUserSchedule]; it returns no configuration at all, so
    none by default.  A user who is not logged in has no attribute and
    fails the same way. *)
Theorem unresolved_user_schedule {Config : Type} (attribute : string)
    (subConfigs : gmap string Config) (user : gmap string string) :
  (∀ v, user !! attribute = Some v → subConfigs !! v = None) →
  dependent (Dependent attribute subConfigs) = true
  ∧ getUserLunchSchedule (Dependent attribute subConfigs) user
    = inl UnresolvedUserSchedule
  ∧ (∀ c, getUserLunchSchedule (Dependent attribute subConfigs) user ≠ inr c)
  ∧ userLunchSchedule (Dependent attribute subConfigs) None
    = inl UnresolvedUserSchedule.
Proof.
  intros Hno.
  assert (Hfail : getUserLunchSchedule (Dependent attribute subConfigs) user
                  = inl UnresolvedUserSchedule).
  { unfold getUserLunchSchedule.
    destruct (user !! attribute) as [v|] eqn:Hv; simpl; [|done].
    by rewrite (Hno v). }
  split_and!; [done..| |].
  - intros c. by rewrite Hfail.
  - unfold userLunchSchedule, getUserLunchSchedule. simpl.
    by rewrite lookup_empty.
Qed.

(** The scenario of the specification: sub-configurations for siteA
    and siteB, a user of siteC. *)
Lemma unresolved_user_schedule_witness :
  getUserLunchSchedule
    (Dependent "site"
       ({[ "siteA" := [1; 3]; "siteB" := [2; 4] ]} : gmap string (list Z)))
    {[ "site" := "siteC" ]}
  = inl UnresolvedUserSchedule.
Proof.
  apply (unresolved_user_schedule "site"
           ({[ "siteA" := [1; 3]; "siteB" := [2; 4] ]} : gmap string (list Z))
           {[ "site" := "siteC" ]}).
  intros v Hv. vm_compute in Hv. injection Hv as <-. vm_compute. reflexivity.
Defined.

(** * Further properties of the code *)

(** ** The profile *)

(** X1.  A profile written by [editUserData] and read back by
    [updateUserData] carries the authenticated uid and email, has no
    password and no domain, and has every other field as it was given. *)
Theorem profile_read_after_write (uid : string) (email : Value)
    (data : Data) :
  let read := updateUserData uid email (Some (editUserData data)) in
  read !! "uid" = Some (VStr uid)
  ∧ read !! "email" = Some email
  ∧ read !! "password" = None
  ∧ read !! "domain" = None
  ∧ (∀ k : string,
       k ∉ ["uid"; "email"; "password"; "domain"] → read !! k = data !! k).
Proof.
  unfold updateUserData, editUserData. simpl.
  split_and!.
  - rewrite lookup_union_r.
    + by rewrite lookup_insert_eq.
    + rewrite !lookup_delete_ne by done. apply lookup_delete_eq.
  - rewrite lookup_union_r.
    + rewrite lookup_insert_ne by done. by rewrite lookup_insert_eq.
    + rewrite !lookup_delete_ne by done. apply lookup_delete_eq.
  - rewrite lookup_union_None. split.
    + rewrite !lookup_delete_ne by done. apply lookup_delete_eq.
    + by rewrite !lookup_insert_ne.
  - rewrite lookup_union_None. split.
    + apply lookup_delete_eq.
    + by rewrite !lookup_insert_ne.
  - intros k Hk.
    assert (k ≠ "uid" ∧ k ≠ "email" ∧ k ≠ "password" ∧ k ≠ "domain")
      as (? & ? & ? & ?).
    { rewrite !not_elem_of_cons in Hk. tauto. }
    rewrite lookup_union, !lookup_delete_ne by done.
    rewrite !lookup_insert_ne, lookup_empty by done.
    by destruct (data !! k).
Qed.

(** X2.  Saving a profile as it was loaded leaves the stored document
    as it is: for a document that [editUserData] wrote, writing what
    [updateUserData] reads gives the same document.  A stored field
    [uid] would prevail over the authenticated uid, but no document
    written by [editUserData] has one. *)
Theorem profile_write_after_read (uid : string) (email : Value)
    (data stored : Data) :
  stored = editUserData data →
  editUserData (updateUserData uid email (Some stored)) = stored
  ∧ stored !! "uid" = None
  ∧ (∀ other v, other !! "uid" = Some v →
                updateUserData uid email (Some other) !! "uid" = Some v).
Proof.
  intros ->. split_and!.
  - apply map_eq. intros k. unfold updateUserData, editUserData. simpl.
    destruct (decide (k = "domain")) as [->|?];
      [by rewrite !lookup_delete_eq|].
    destruct (decide (k = "email")) as [->|?];
      [by rewrite !(lookup_delete_ne _ "domain"), !lookup_delete_eq by done|].
    destruct (decide (k = "password")) as [->|?];
      [by rewrite !(lookup_delete_ne _ "domain"), !(lookup_delete_ne _ "email"),
         !lookup_delete_eq by done|].
    destruct (decide (k = "uid")) as [->|?];
      [by rewrite !(lookup_delete_ne _ "domain"), !(lookup_delete_ne _ "email"),
         !(lookup_delete_ne _ "password"), !lookup_delete_eq by done|].
    rewrite !lookup_delete_ne, lookup_union, !lookup_delete_ne by done.
    rewrite !lookup_insert_ne, lookup_empty by done.
    by destruct (data !! k).
  - unfold editUserData. rewrite !lookup_delete_ne by done.
    apply lookup_delete_eq.
  - intros other v Hv. unfold updateUserData. simpl.
    by apply lookup_union_Some_l.
Qed.

Lemma profile_write_after_read_witness :
  editUserData
    (updateUserData "u1" (VStr "a@b.c")
       (Some (editUserData
                {[ "name" := VStr "Ann"; "password" := VStr "secret";
                   "uid" := VStr "u0" ]})))
  = editUserData
      {[ "name" := VStr "Ann"; "password" := VStr "secret";
         "uid" := VStr "u0" ]}.
Proof.
  apply (profile_write_after_read "u1" (VStr "a@b.c")
           {[ "name" := VStr "Ann"; "password" := VStr "secret";
              "uid" := VStr "u0" ]}).
  reflexivity.
Defined.

(** ** Objects filled from a snapshot *)

Section FillFacts.
Context {V A : Type}.
Implicit Types (k : string) (v : V) (o : list (string * V)).

Lemma keyPrecedes_trans (a b c : string) :
  keyPrecedes a b → keyPrecedes b c → keyPrecedes a c.
Proof.
  unfold keyPrecedes.
  destruct (arrayIndex a), (arrayIndex b), (arrayIndex c); try done. lia.
Qed.

Lemma keyPrecedes_name (a k : string) :
  arrayIndex k = None → keyPrecedes a k.
Proof. unfold keyPrecedes. intros ->. by destruct (arrayIndex a). Qed.

Lemma insertIndex_sorted n k v o :
  arrayIndex k = Some n →
  StronglySorted keyPrecedes (keysOf o) →
  StronglySorted keyPrecedes (keysOf (insertIndex n k v o)).
Proof.
  intros Hk. unfold keysOf. induction o as [|[k0 v0] r IH].
  - intros _. simpl. apply SSorted_cons; [apply SSorted_nil|apply Forall_nil_2].
  - rewrite fmap_cons. intros [Hall Hr]%StronglySorted_cons. cbn [insertIndex].
    assert (Hfirst : keyPrecedes k k0 →
      StronglySorted keyPrecedes (((k, v) :: (k0, v0) :: r).*1)).
    { intros Hk0. rewrite !fmap_cons. apply StronglySorted_cons. split.
      - apply Forall_cons. split; [done|].
        eapply Forall_impl; [exact Hall|]. intros x ?.
        by eapply keyPrecedes_trans.
      - by apply StronglySorted_cons. }
    destruct (arrayIndex k0) as [n0|] eqn:Hk0.
    + destruct (n0 <? n)%N eqn:Hlt.
      * rewrite fmap_cons. apply StronglySorted_cons. split; [|by apply IH].
        destruct (insertIndex_split n k v r) as (o1 & o2 & -> & ->).
        rewrite fmap_app in Hall. apply Forall_app in Hall as [H1 H2].
        rewrite fmap_app, fmap_cons. apply Forall_app. split; [done|].
        apply Forall_cons. split; [|done].
        unfold keyPrecedes. cbn [fst]. rewrite Hk0, Hk.
        apply N.ltb_lt in Hlt. lia.
      * apply Hfirst. unfold keyPrecedes. rewrite Hk0, Hk.
        apply N.ltb_ge in Hlt. lia.
    + apply Hfirst. unfold keyPrecedes. by rewrite Hk0, Hk.
Qed.

(** An assignment keeps the properties in the order of enumeration. *)
Lemma assign_sorted k v o :
  StronglySorted keyPrecedes (keysOf o) →
  StronglySorted keyPrecedes (keysOf (assign k v o)).
Proof.
  intros Ho. destruct (decide (k ∈ keysOf o)) as [Hin|Hout].
  - by rewrite assign_old, keysOf_replaceProp.
  - apply prop_None in Hout. unfold assign. rewrite Hout.
    destruct (arrayIndex k) as [n|] eqn:Hk; [by apply insertIndex_sorted|].
    unfold keysOf. rewrite fmap_app. apply StronglySorted_app. split_and!.
    + intros x1 x2 _ ->%list_elem_of_singleton. by apply keyPrecedes_name.
    + done.
    + apply SSorted_cons; [apply SSorted_nil|apply Forall_nil_2].
Qed.

Lemma assign_new_Permutation k v o :
  k ∉ keysOf o → assign k v o ≡ₚ (k, v) :: o.
Proof.
  intros Hk. destruct (assign_new_split k v o Hk) as (o1 & o2 & -> & ->).
  by rewrite Permutation_middle.
Qed.

(** A new property leaves the properties under ordinary names in their
    order, and is the last of them when its name is ordinary. *)
Lemma assign_new_names k v o :
  k ∉ keysOf o →
  List.filter (fun kv => ordinaryName kv.1) (assign k v o)
  = List.filter (fun kv => ordinaryName kv.1) o
    ++ (if ordinaryName k then [(k, v)] else []).
Proof.
  intros Hk. destruct (arrayIndex k) as [n|] eqn:Hn.
  - assert (Ho : ordinaryName k = false)
      by (unfold ordinaryName; by rewrite Hn).
    destruct (assign_new_split k v o Hk) as (o1 & o2 & -> & ->).
    rewrite !List.filter_app. cbn [List.filter fst].
    by rewrite Ho, app_nil_r.
  - assert (Ho : ordinaryName k = true)
      by (unfold ordinaryName; by rewrite Hn).
    rewrite assign_new_name by done. rewrite List.filter_app.
    cbn [List.filter fst]. by rewrite Ho.
Qed.

(** Filling an object from a list with distinct new keys gives one
    property per element;  the properties are in the order of
    enumeration when those of the object were, and those under ordinary
    names follow the ones the object had, in the order of the list. *)
Lemma fold_assign_fresh (f : A → string) (g : A → V) (l : list A)
    (acc : list (string * V)) :
  NoDup (f <$> l) → (∀ x, x ∈ l → f x ∉ keysOf acc) →
  fold_left (fun a x => assign (f x) (g x) a) l acc
  ≡ₚ acc ++ map (fun x => (f x, g x)) l
  ∧ List.filter (fun kv => ordinaryName kv.1)
      (fold_left (fun a x => assign (f x) (g x) a) l acc)
    = List.filter (fun kv => ordinaryName kv.1) acc
      ++ map (fun x => (f x, g x))
           (List.filter (fun x => ordinaryName (f x)) l)
  ∧ (StronglySorted keyPrecedes (keysOf acc) →
     StronglySorted keyPrecedes
       (keysOf (fold_left (fun a x => assign (f x) (g x) a) l acc))).
Proof.
  revert acc. induction l as [|x l IH]; intros acc Hnd Hacc.
  - simpl. by rewrite !app_nil_r.
  - rewrite fmap_cons in Hnd. apply NoDup_cons in Hnd as [Hx Hnd].
    assert (Hfx : f x ∉ keysOf acc) by (apply Hacc; by left).
    destruct (IH (assign (f x) (g x) acc) Hnd) as (Hperm & Hnames & Hsorted).
    { intros y Hy. rewrite elem_of_keysOf_assign. intros [Heq|Hin].
      - apply Hx. rewrite <-Heq. by apply list_elem_of_fmap_2.
      - revert Hin. apply Hacc. by right. }
    cbn [fold_left]. split_and!.
    + rewrite Hperm, assign_new_Permutation by done. cbn [map].
      by rewrite <-Permutation_middle.
    + rewrite Hnames, assign_new_names by done. cbn [List.filter].
      destruct (ordinaryName (f x)); cbn [map].
      * by rewrite <-app_assoc.
      * by rewrite app_nil_r.
    + intros Ho. apply Hsorted. by apply assign_sorted.
Qed.
End FillFacts.

(** ** Presets *)

(** X3.  From a snapshot with distinct ids, [updatePresets] holds one
    preset per document, each the data of its document with the id
    under [key].  The presets are enumerated with those under array
    indices first, in ascending order, and those under other ids after
    them, in the order of the snapshot.  [editPreset] never writes a
    [key], and applied to a preset as read it writes the stored data
    back when that data has no [key] of its own. *)
Theorem presets_round_trip (qs : QuerySnapshot) :
  NoDup (id <$> qs) →
  updatePresets qs
  ≡ₚ map (fun doc => (id doc, <["key" := VStr (id doc)]> (data doc))) qs
  ∧ StronglySorted keyPrecedes (keysOf (updatePresets qs))
  ∧ List.filter (fun kv => ordinaryName kv.1) (updatePresets qs)
    = map (fun doc => (id doc, <["key" := VStr (id doc)]> (data doc)))
        (List.filter (fun doc => ordinaryName (id doc)) qs)
  ∧ (∀ doc, doc ∈ qs →
            prop (id doc) (updatePresets qs)
            = Some (<["key" := VStr (id doc)]> (data doc)))
  ∧ (∀ d, editPreset d !! "key" = None)
  ∧ (∀ doc, data doc !! "key" = None →
            editPreset (<["key" := VStr (id doc)]> (data doc)) = data doc).
Proof.
  intros Hnd.
  destruct (fold_assign_fresh id
              (fun doc => <["key" := VStr (id doc)]> (data doc)) qs [] Hnd)
    as (Hperm & Hnames & Hsorted).
  { intros doc _. apply not_elem_of_nil. }
  fold (updatePresets qs) in Hperm, Hnames, Hsorted.
  split_and!; [done| |done| | |].
  - apply Hsorted. apply SSorted_nil.
  - intros doc Hin. apply elem_of_prop.
    + unfold keysOf. rewrite Hperm. simpl.
      change (map ?f ?l) with (f <$> l). rewrite <-list_fmap_compose.
      exact Hnd.
    + rewrite Hperm. simpl.
      by apply (list_elem_of_fmap_2
        (fun doc => (id doc, <["key" := VStr (id doc)]> (data doc)))).
  - intros d. apply lookup_delete_eq.
  - intros doc Hkey. unfold editPreset.
    rewrite delete_insert_eq. by apply delete_id.
Qed.

(** The theorem on three presets, stored under the ids 10, p1 and 9:
    they are enumerated as 9, 10, p1. *)
Lemma presets_round_trip_witness :
  keysOf
    (updatePresets
       [ {| id := "10"; data := {[ "title" := VStr "Usual" ]} |};
         {| id := "p1"; data := {[ "title" := VStr "Friday" ]} |};
         {| id := "9"; data := {[ "title" := VStr "Light" ]} |} ])
  = ["9"; "10"; "p1"]
  ∧ StronglySorted keyPrecedes
      (keysOf
         (updatePresets
            [ {| id := "10"; data := {[ "title" := VStr "Usual" ]} |};
              {| id := "p1"; data := {[ "title" := VStr "Friday" ]} |};
              {| id := "9"; data := {[ "title" := VStr "Light" ]} |} ])).
Proof.
  split; [vm_compute; reflexivity|].
  apply (presets_round_trip
    [ {| id := "10"; data := {[ "title" := VStr "Usual" ]} |};
      {| id := "p1"; data := {[ "title" := VStr "Friday" ]} |};
      {| id := "9"; data := {[ "title" := VStr "Light" ]} |} ]).
  apply (bool_decide_unpack _). vm_compute. exact I.
Defined.

(** ** Orders written and read back *)

Lemma stripDoc_pushed (toISO : option Value → Value) (form : Data)
    (uid key : string) :
  stripDoc
    {| id := key;
       data := <["uid" := VStr uid]> (<["date" := toISO (form !! "date")]> form) |}
  = <["key" := VStr key]>
      (<["date" := toISO (form !! "date")]> (delete "uid" form)).
Proof.
  unfold stripDoc. simpl. apply map_eq. intros k.
  destruct (decide (k = "uid")) as [->|?].
  { rewrite lookup_delete_eq, !lookup_insert_ne by done.
    by rewrite lookup_delete_eq. }
  rewrite lookup_delete_ne by done.
  destruct (decide (k = "key")) as [->|?]; [by rewrite !lookup_insert_eq|].
  rewrite !(lookup_insert_ne _ "key"), (lookup_insert_ne _ "uid") by done.
  destruct (decide (k = "date")) as [->|?]; [by rewrite !lookup_insert_eq|].
  rewrite !lookup_insert_ne by done. by rewrite lookup_delete_ne.
Qed.

(** X4.  An order that [createOrder] wrote under a static schedule and
    that a snapshot with distinct ids delivers, dated on or after the
    cutoff date, is in [collectionData] under its document id as the
    form that was submitted, with the date in ISO form and the id under
    [key], and without the uid that was stamped on it; under a schedule
    that is not CUSTOM this is the state. *)
Theorem created_order_read_back (E : ScheduleEnv)
    (toISO : option Value → Value) (now : Z) (qs : QuerySnapshot)
    (os : OrderSchedule E) (ls : LunchSchedule E) (form : Data)
    (uid : string) (doc : Doc) :
  NoDup (id <$> qs) → doc ∈ qs →
  createOrder_static toISO form uid = [SetNew (data doc)] →
  getCutoffDate E now os ≤ parseISO E (Some (toISO (form !! "date"))) →
  prop (id doc) (collectionDataOf E now qs os)
  = Some (<["key" := VStr (id doc)]>
            (<["date" := toISO (form !! "date")]> (delete "uid" form)))
  ∧ (scheduleType E os ≠ Some CUSTOM →
     updateOrders E now qs os ls = OrdersById (collectionDataOf E now qs os)).
Proof.
  intros Hnd Hin Hpush Hfresh. injection Hpush as Hdata.
  split; [|intros Hc; apply updateOrders_plain; by left].
  rewrite <-(stripDoc_pushed toISO form uid (id doc)), Hdata.
  assert (Hdoc : {| id := id doc; data := data doc |} = doc) by by destruct doc.
  rewrite Hdoc. apply collect_survives; [done..|].
  by rewrite <-Hdata, lookup_insert_ne, lookup_insert_eq.
Qed.

Lemma created_order_read_back_witness :
  prop "a"
    (collectionDataOf Calendar.env 0
       [ {| id := "a";
            data := {[ "uid" := VStr "u1"; "date" := VStr "2021-03-05";
                       "title" := VStr "Soup" ]} |} ]
       Calendar.daily)
  = Some
      (<["key" := VStr "a"]>
         (<["date" := VStr "2021-03-05"]>
            (delete "uid"
               ({[ "date" := VStr "2021-03-05"; "title" := VStr "Soup" ]}
                : Data)))).
Proof.
  refine (proj1 (created_order_read_back Calendar.env (default VNull) 0
    [ {| id := "a";
         data := {[ "uid" := VStr "u1"; "date" := VStr "2021-03-05";
                    "title" := VStr "Soup" ]} |} ]
    Calendar.daily Calendar.tenDays
    {[ "date" := VStr "2021-03-05"; "title" := VStr "Soup" ]} "u1"
    {| id := "a";
       data := {[ "uid" := VStr "u1"; "date" := VStr "2021-03-05";
                  "title" := VStr "Soup" ]} |} _ _ _ _)).
  - apply (bool_decide_unpack _). vm_compute. exact I.
  - by left.
  - vm_compute. reflexivity.
  - vm_compute. discriminate.
Defined.

(** X5.  Under a static schedule, editing an order as the home screen
    shows it, without a change, writes the stored document back as it
    is: when the document has the user's uid, a date that [toISO] reads
    back from its readable form, and no [key] of its own.  Whatever
    [editOrder] writes, it writes without a [key] and with the uid. *)
Theorem edited_order_unchanged (E : ScheduleEnv)
    (toISO : option Value → Value) (doc : Doc) (uid : string) (date : Value) :
  data doc !! "uid" = Some (VStr uid) →
  data doc !! "key" = None →
  data doc !! "date" = Some date →
  toISO (Some (toReadable E (Some date))) = date →
  editOrder_static toISO (readable E (stripDoc doc)) [id doc] uid
  = [SetAt (Some (id doc)) (data doc)]
  ∧ (∀ form ids op,
       op ∈ editOrder_static toISO form ids uid →
       ∃ d, op = SetAt (ids !! 0%nat) d ∧ d !! "key" = None
            ∧ d !! "uid" = Some (VStr uid)).
Proof.
  intros Huid Hkey Hdate Hiso. split.
  - unfold editOrder_static, dataToPush_static, readable. simpl.
    rewrite lookup_insert_eq, stripDoc_date, Hdate, Hiso.
    do 2 f_equal. apply map_eq. intros k.
    destruct (decide (k = "key")) as [->|?]; [by rewrite lookup_delete_eq|].
    rewrite lookup_delete_ne by done.
    destruct (decide (k = "uid")) as [->|?]; [by rewrite lookup_insert_eq|].
    rewrite lookup_insert_ne by done.
    destruct (decide (k = "date")) as [->|?]; [by rewrite lookup_insert_eq|].
    rewrite !lookup_insert_ne by done. by apply stripDoc_other.
  - intros form ids op. unfold editOrder_static, dataToPush_static. simpl.
    intros ->%list_elem_of_singleton. eexists. split_and!; [done| |].
    + apply lookup_delete_eq.
    + rewrite lookup_delete_ne by done. apply lookup_insert_eq.
Qed.

Lemma edited_order_unchanged_witness :
  editOrder_static (default VNull)
    (readable Calendar.env (stripDoc (Calendar.order "a" "u1" 5))) ["a"] "u1"
  = [SetAt (Some "a") (data (Calendar.order "a" "u1" 5))].
Proof.
  refine (proj1 (edited_order_unchanged Calendar.env (default VNull)
    (Calendar.order "a" "u1" 5) "u1" (VStr (Calendar.isoOfDay 5)) _ _ _ _));
    vm_compute; reflexivity.
Defined.

(** ** Orders of a dynamic schedule *)

Lemma pushed_dynamic_date (data : list (string * Data)) (uid date : string) :
  (<["uid" := VStr uid]>
     (<["date" := VStr date]> (default ∅ (prop date data))) : Data)
  !! "date" = Some (VStr date).
Proof. rewrite lookup_insert_ne by done. apply lookup_insert_eq. Qed.

Lemma NoDup_List_filter {A} (f : A → bool) (l : list A) :
  NoDup l → NoDup (List.filter f l).
Proof. rewrite !NoDup_ListNoDup. apply List.NoDup_filter. Qed.

(** X6.  Under a dynamic schedule the form, an object with distinct
    property names, gives one document for each of its properties other
    than [date], in their order: the document is the order object under
    that property with the property name as its date, as it is, and
    with the uid.  No two documents have the same date and none is
    dated by the property [date]. *)
Theorem dynamic_order_documents (data : list (string * Data))
    (uid : string) :
  NoDup (keysOf data) →
  map (fun d : Data => d !! "date") (dataToPush_dynamic data uid)
  = map (fun key => Some (VStr key))
      (List.filter (fun key => negb (bool_decide (key = "date")))
         (keysOf data))
  ∧ NoDup (map (fun d : Data => d !! "date") (dataToPush_dynamic data uid))
  ∧ Forall
      (fun d : Data =>
         d !! "uid" = Some (VStr uid) ∧ d !! "date" ≠ Some (VStr "date"))
      (dataToPush_dynamic data uid)
  ∧ (∀ date o,
       date ≠ "date" → prop date data = Some o →
       <["uid" := VStr uid]> (<["date" := VStr date]> o)
       ∈ dataToPush_dynamic data uid).
Proof.
  intros Hnd.
  assert (Hdates :
    map (fun d : Data => d !! "date") (dataToPush_dynamic data uid)
    = map (fun key => Some (VStr key))
        (List.filter (fun key => negb (bool_decide (key = "date")))
           (keysOf data))).
  { unfold dataToPush_dynamic. rewrite map_map. apply map_ext.
    intros date. apply pushed_dynamic_date. }
  split_and!; [done| | |].
  - rewrite Hdates. apply (NoDup_fmap_2_strong (fun key => Some (VStr key))).
    + by intros x y _ _ [= ->].
    + by apply NoDup_List_filter.
  - apply Forall_forall. intros d. unfold dataToPush_dynamic.
    rewrite list_elem_of_In, in_map_iff.
    intros (date & <- & [_ Hdate]%filter_In). split.
    + apply lookup_insert_eq.
    + rewrite pushed_dynamic_date. intros [= ->].
      by rewrite bool_decide_true in Hdate.
  - intros date o Hdate Ho. unfold dataToPush_dynamic.
    rewrite list_elem_of_In, in_map_iff. exists date. split.
    + by rewrite Ho.
    + apply filter_In. split.
      * apply list_elem_of_In, prop_is_Some. by exists o.
      * by rewrite bool_decide_false.
Qed.

Lemma dynamic_order_documents_witness :
  map (fun d : Data => d !! "date")
    (dataToPush_dynamic
       [("date", {[ "title" := VStr "week" ]});
        ("2021-03-08", {[ "title" := VStr "Soup" ]});
        ("2021-03-09", {[ "title" := VStr "Rice" ]})] "u1")
  = [Some (VStr "2021-03-08"); Some (VStr "2021-03-09")].
Proof.
  rewrite (proj1 (dynamic_order_documents
    [("date", {[ "title" := VStr "week" ]});
     ("2021-03-08", {[ "title" := VStr "Soup" ]});
     ("2021-03-09", {[ "title" := VStr "Rice" ]})] "u1"
    ltac:(apply (bool_decide_unpack _); vm_compute; exact I))).
  reflexivity.
Defined.

(** ** The cards of the home screen *)

Section CardFacts.
Variable E : ScheduleEnv.
Variables (now : Z) (qs : QuerySnapshot).
Variables (os : OrderSchedule E) (ls : LunchSchedule E).

(** The cards of a dynamic schedule are the views of the group objects
    of the state. *)
Lemma dynamic_items items item :
  scheduleType E os = Some CUSTOM →
  getOrdersArr E (updateOrders E now qs os ls) true = Some items →
  item ∈ items →
  ∃ j e, (j, e) ∈ groupsOf (updateOrders E now qs os ls)
         ∧ item = GroupItem (groupView E e).
Proof.
  intros Hc.
  destruct (updateOrders_cases E now qs os ls)
    as [(_ & _ & ->)|([?| ->] & ->)]; [|done|].
  - rewrite getOrdersArr_groups. intros [= <-].
    intros (g & -> & Hin)%list_elem_of_fmap.
    unfold getOrdersArr_dynamic in Hin.
    apply list_elem_of_fmap in Hin as (e & -> & Hin%elem_of_sortBy).
    apply list_elem_of_fmap in Hin as ([j e'] & -> & Hin).
    by exists j, e'.
  - simpl. intros [= <-] ?%elem_of_nil. done.
Qed.

(** The cards of a static schedule are the surviving documents,
    stripped and made readable. *)
Lemma static_items items item :
  scheduleType E os ≠ Some CUSTOM →
  getOrdersArr E (updateOrders E now qs os ls) false = Some items →
  item ∈ items →
  ∃ doc, doc ∈ qs
         ∧ getCutoffDate E now os ≤ parseISO E (data doc !! "date")
         ∧ item = OrderItem (readable E (stripDoc doc)).
Proof.
  intros Hc.
  rewrite (updateOrders_plain E now qs os ls (or_introl Hc)).
  rewrite getOrdersArr_orders. intros [= <-].
  intros (order & -> & Hin)%list_elem_of_fmap.
  unfold getOrdersArr_static in Hin.
  apply list_elem_of_fmap in Hin as (d & -> & Hin%elem_of_sortBy).
  apply list_elem_of_fmap in Hin as ([k d'] & -> & Hin).
  apply elem_of_collect in Hin as [Hin|(doc & Hdoc & _ & Hd & Hfresh)];
    [by apply elem_of_nil in Hin|].
  exists doc. simpl. by rewrite Hd.
Qed.

(** The state and the flag the home screen reads it with always fit. *)
Lemma getOrdersArr_is_Some :
  is_Some
    (getOrdersArr E (updateOrders E now qs os ls)
       (bool_decide (scheduleType E os = Some CUSTOM))).
Proof.
  destruct (updateOrders_cases E now qs os ls)
    as [(Hc & _ & ->)|([Hc| ->] & ->)].
  - rewrite bool_decide_true by done. by rewrite getOrdersArr_groups.
  - rewrite bool_decide_false by done. by rewrite getOrdersArr_orders.
  - by destruct (bool_decide _).
Qed.
End CardFacts.

(** ** The tap on an order *)

(** C10.  [focusOrderNavigate] shows the "too late" alert, and does
    nothing else, exactly when its index is truthy and below zero, for
    a number exactly when it is not zero and negative; otherwise it
    focuses the order and opens the edit screen.  Under a schedule that
    is not CUSTOM a card is a stored order and the tap passes on the
    [index] field of the document.  Under a CUSTOM schedule, where the
    reconciler records an index in every group object, no card carries
    it, since [getOrdersArr] leaves [index] among the rest properties:
    a tap on a card opens the edit screen whatever the recorded index
    is, also when it is negative. *)
Theorem late_order_tap_proceeds (E : ScheduleEnv) (now : Z)
    (qs : QuerySnapshot) (os : OrderSchedule E) (ls : LunchSchedule E)
    (dynamicMenu : bool) :
  (∀ key hasTitle index,
     focusOrderNavigate dynamicMenu key hasTitle index
     = [Alert "Cannot edit order" "It is too late to edit this order."] ↔
     truthy index = true ∧ lessThanZero index = true)
  ∧ (∀ key hasTitle n,
       focusOrderNavigate dynamicMenu key hasTitle (Some (VNum n))
       = [Alert "Cannot edit order" "It is too late to edit this order."] ↔
       n ≠ 0 ∧ n < 0)
  ∧ (∀ key hasTitle index,
       truthy index = false ∨ lessThanZero index = false →
       focusOrderNavigate dynamicMenu key hasTitle index
       = [FocusOrder key;
          Navigate "Order"
            (if hasTitle && negb dynamicMenu then "Preset Order"
             else "Custom Order")])
  ∧ (scheduleType E os ≠ Some CUSTOM →
     ∀ items item,
       getOrdersArr E (updateOrders E now qs os ls) false = Some items →
       item ∈ items →
       ∃ doc,
         doc ∈ qs
         ∧ item = OrderItem (readable E (stripDoc doc))
         ∧ pressItem dynamicMenu item
           = focusOrderNavigate dynamicMenu (inl (Some (VStr (id doc))))
               (truthy (data doc !! "title")) (data doc !! "index"))
  ∧ (scheduleType E os = Some CUSTOM →
     plainDates (allScheduleGroupsOf E now qs os ls) →
     ∀ items item,
       getOrdersArr E (updateOrders E now qs os ls) true = Some items →
       item ∈ items →
       ∃ j e n,
         (j, e) ∈ groupsOf (updateOrders E now qs os ls)
         ∧ item = GroupItem (groupView E e)
         ∧ entryIndex e = Some n
         ∧ pressItem dynamicMenu item
           = [FocusOrder (inr (Some (ENum (Z.of_nat j))));
              Navigate "Order" "Custom Order"]).
Proof.
  assert (Hguard : ∀ key hasTitle index,
    focusOrderNavigate dynamicMenu key hasTitle index
    = [Alert "Cannot edit order" "It is too late to edit this order."] ↔
    truthy index = true ∧ lessThanZero index = true).
  { intros key hasTitle index. unfold focusOrderNavigate.
    destruct (truthy index), (lessThanZero index); simpl;
      (split; [try done|]; by intros [? ?]). }
  split_and!.
  - exact Hguard.
  - intros key hasTitle n. rewrite Hguard. simpl.
    rewrite negb_true_iff, Z.eqb_neq, Z.ltb_lt. done.
  - intros key hasTitle index Hno. unfold focusOrderNavigate.
    destruct Hno as [-> | ->]; [done|]. by rewrite andb_false_r.
  - intros Hc items item Hitems Hin.
    destruct (static_items E now qs os ls items item Hc Hitems Hin)
      as (doc & Hdoc & _ & ->).
    exists doc. split_and!; [done..|].
    unfold pressItem, itemIndex, readable.
    rewrite !lookup_insert_ne by done.
    by rewrite stripDoc_key, !stripDoc_other.
  - intros Hc Hplain items item Hitems Hin.
    destruct (dynamic_items E now qs os ls items item Hc Hitems Hin)
      as (j & e & He & ->).
    exists j, e.
    pose proof He as (_ & _ & g & _ & Hg & _ & _ & Heq)%elem_of_groupsOf.
    rewrite Nat.sub_0_r in Hg.
    assert (Hg_plain :
      Forall (fun s => s ∉ ["date"; "key"; "index"; "keys"]) g).
    { unfold plainDates in Hplain. rewrite Forall_forall in Hplain.
      apply Hplain. by eapply list_elem_of_lookup_2. }
    revert Heq.
    match goal with
    | |- _ = groupEntry _ _ _ ?n _ → _ => generalize n
    end.
    intros index ->. exists index. split_and!; [done|done| |].
    + by apply entryIndex_groupEntry.
    + rewrite pressItem_group. unfold groupView. cbn [gv_key].
      by rewrite gv_key_groupEntry.
Qed.

(** The theorem on the calendar, lunch on the first fifteen days in
    groups of five, groups closing five days ahead, read at noon of the
    5th with orders for the 5th and the 15th: the group of the 5th
    records the index -1, and the tap on its card, like the tap on the
    other, opens the edit screen. *)
Lemma late_order_tap_proceeds_witness :
  map (fun ie => (ie.1, entryIndex ie.2))
    (groupsOf
       (updateOrders Calendar.env 108 Calendar.fifthAndFifteenth
          (Calendar.custom 120) Calendar.fifteenDays))
  = [(0%nat, Some (-1)); (2%nat, Some 0)]
  ∧ map (pressItem false)
      (GroupItem
       <$> getOrdersArr_dynamic Calendar.env
             (groupsOf
                (updateOrders Calendar.env 108 Calendar.fifthAndFifteenth
                   (Calendar.custom 120) Calendar.fifteenDays)))
    = [[FocusOrder (inr (Some (ENum 0))); Navigate "Order" "Custom Order"];
       [FocusOrder (inr (Some (ENum 2))); Navigate "Order" "Custom Order"]]
  ∧ Forall
      (fun item =>
         ∃ j e n,
           (j, e) ∈ groupsOf
             (updateOrders Calendar.env 108 Calendar.fifthAndFifteenth
                (Calendar.custom 120) Calendar.fifteenDays)
           ∧ item = GroupItem (groupView Calendar.env e)
           ∧ entryIndex e = Some n
           ∧ pressItem false item
             = [FocusOrder (inr (Some (ENum (Z.of_nat j))));
                Navigate "Order" "Custom Order"])
      (GroupItem
       <$> getOrdersArr_dynamic Calendar.env
             (groupsOf
                (updateOrders Calendar.env 108 Calendar.fifthAndFifteenth
                   (Calendar.custom 120) Calendar.fifteenDays))).
Proof.
  split; [vm_compute; reflexivity|].
  split; [vm_compute; reflexivity|].
  apply Forall_forall. intros item Hin.
  apply (proj2 (proj2 (proj2 (proj2
    (late_order_tap_proceeds Calendar.env 108 Calendar.fifthAndFifteenth
       (Calendar.custom 120) Calendar.fifteenDays false))))
    eq_refl
    ltac:(apply (bool_decide_unpack _); vm_compute; exact I)
    _ item (getOrdersArr_groups _ _) Hin).
Defined.

(** X8.  Under a CUSTOM schedule whose groups have ordinary dates, a
    card stands for one group of the sequence: its key is the position
    of the group and its date is made of the first and the last date of
    the group.  The delete button of the card commits a batch that
    deletes exactly the surviving documents whose date lies in that
    group, each once, and nothing else. *)
Theorem delete_group_card (E : ScheduleEnv) (now : Z) (qs : QuerySnapshot)
    (os : OrderSchedule E) (ls : LunchSchedule E) (items : list Item)
    (item : Item) :
  scheduleType E os = Some CUSTOM →
  plainDates (allScheduleGroupsOf E now qs os ls) →
  getOrdersArr E (updateOrders E now qs os ls) true = Some items →
  item ∈ items →
  ∃ j g view,
    item = GroupItem view
    ∧ allScheduleGroupsOf E now qs os ls !! j = Some g
    ∧ gv_key view = Some (ENum (Z.of_nat j))
    ∧ gv_date view
      = toSimple E (head g) +:+ " to " +:+ toSimple E (last g)
    ∧ deleteOrder (deleteArg item)
      = (fun key => DeleteAt (inl (Some (VStr key))))
        <$> relevantKeysOf (collectionDataOf E now qs os) g
    ∧ relevantKeysOf (collectionDataOf E now qs os) g ≠ []
    ∧ NoDup (relevantKeysOf (collectionDataOf E now qs os) g)
    ∧ (∀ key,
         key ∈ relevantKeysOf (collectionDataOf E now qs os) g ↔
         matches (collectionDataOf E now qs os) g key).
Proof.
  intros Hc Hplain Hitems Hin.
  destruct (dynamic_items E now qs os ls items item Hc Hitems Hin)
    as (j & e & He & ->).
  apply elem_of_groupsOf in He as (_ & _ & g & _ & Hg & _ & Hcl & Heq).
  rewrite Nat.sub_0_r in Hg. exists j, g, (groupView E e).
  assert (Hg_plain : Forall (fun s => s ∉ ["date"; "key"; "index"; "keys"]) g).
  { unfold plainDates in Hplain. rewrite Forall_forall in Hplain.
    apply Hplain. by eapply list_elem_of_lookup_2. }
  revert Heq.
  match goal with
  | |- _ = groupEntry _ _ _ ?n _ → _ => generalize n
  end.
  intros index ->.
  assert (Hkeys :
    prop "keys"
      (groupEntry (collectionDataOf E now qs os) g j index
         (relevantKeysOf (collectionDataOf E now qs os) g))
    = Some (EKeys (relevantKeysOf (collectionDataOf E now qs os) g))).
  { rewrite groupEntry_fixed by (done || (do 3 right; by left)). done. }
  split_and!; [done|done| | | | | |].
  - unfold groupView. cbn [gv_key]. by apply gv_key_groupEntry.
  - unfold groupView. cbn [gv_date]. by rewrite groupDates_groupEntry.
  - unfold deleteArg, groupView. cbn [gv_keys]. rewrite Hkeys.
    unfold deleteOrder.
    change (map ?f ?l) with (f <$> l). by rewrite <-list_fmap_compose.
  - intros Hnil. by apply relevantKeysOf_nil in Hnil.
  - apply NoDup_List_filter, NoDup_collectionData.
  - intros key. apply elem_of_relevantKeysOf.
Qed.

(** The theorem on the calendar: the card of the group of the 1st to
    the 5th deletes the order for the 5th, and the card of the group of
    the 11th to the 15th the order for the 15th. *)
Lemma delete_group_card_witness :
  map (fun item => deleteOrder (deleteArg item))
    (GroupItem
     <$> getOrdersArr_dynamic Calendar.env
           (groupsOf
              (updateOrders Calendar.env 108 Calendar.fifthAndFifteenth
                 (Calendar.custom 120) Calendar.fifteenDays)))
  = [[DeleteAt (inl (Some (VStr "a")))]; [DeleteAt (inl (Some (VStr "b")))]]
  ∧ Forall
      (fun item =>
         ∃ j g view,
           item = GroupItem view
           ∧ allScheduleGroupsOf Calendar.env 108 Calendar.fifthAndFifteenth
               (Calendar.custom 120) Calendar.fifteenDays !! j = Some g
           ∧ gv_key view = Some (ENum (Z.of_nat j))
           ∧ gv_date view
             = toSimple Calendar.env (head g) +:+ " to "
               +:+ toSimple Calendar.env (last g)
           ∧ deleteOrder (deleteArg item)
             = (fun key => DeleteAt (inl (Some (VStr key))))
               <$> relevantKeysOf
                     (collectionDataOf Calendar.env 108
                        Calendar.fifthAndFifteenth (Calendar.custom 120)) g)
      (GroupItem
       <$> getOrdersArr_dynamic Calendar.env
             (groupsOf
                (updateOrders Calendar.env 108 Calendar.fifthAndFifteenth
                   (Calendar.custom 120) Calendar.fifteenDays))).
Proof.
  split; [vm_compute; reflexivity|].
  apply Forall_forall. intros item Hin.
  destruct (delete_group_card Calendar.env 108 Calendar.fifthAndFifteenth
    (Calendar.custom 120) Calendar.fifteenDays _ item eq_refl
    ltac:(apply (bool_decide_unpack _); vm_compute; exact I)
    (getOrdersArr_groups _ _) Hin)
    as (j & g & view & Hitem & Hg & Hkey & Hdate & Hdel & _).
  by exists j, g, view.
Defined.

(** X9.  Under a schedule that is not CUSTOM, every card is a surviving
    document of the snapshot, and its delete button commits a batch
    that deletes that one document, when the stored document has no
    field [keys]. *)
Theorem delete_order_card (E : ScheduleEnv) (now : Z) (qs : QuerySnapshot)
    (os : OrderSchedule E) (ls : LunchSchedule E) (items : list Item)
    (item : Item) :
  scheduleType E os ≠ Some CUSTOM →
  getOrdersArr E (updateOrders E now qs os ls) false = Some items →
  item ∈ items →
  ∃ doc,
    doc ∈ qs
    ∧ getCutoffDate E now os ≤ parseISO E (data doc !! "date")
    ∧ item = OrderItem (readable E (stripDoc doc))
    ∧ (data doc !! "keys" = None →
       deleteOrder (deleteArg item)
       = [DeleteAt (inl (Some (VStr (id doc))))]).
Proof.
  intros Hc Hitems Hin.
  destruct (static_items E now qs os ls items item Hc Hitems Hin)
    as (doc & Hdoc & Hfresh & ->).
  exists doc. split_and!; [done..|]. intros Hkeys.
  assert (Hk : readable E (stripDoc doc) !! "keys" = None).
  { unfold readable. rewrite lookup_insert_ne by done.
    by rewrite stripDoc_other. }
  assert (Hkey : readable E (stripDoc doc) !! "key" = Some (VStr (id doc))).
  { unfold readable. rewrite lookup_insert_ne by done. apply stripDoc_key. }
  unfold deleteArg. by rewrite Hk, Hkey.
Qed.

Lemma delete_order_card_witness :
  Forall
    (fun item =>
       ∃ doc,
         doc ∈ Calendar.secondAndFifth
         ∧ deleteOrder (deleteArg item)
           = [DeleteAt (inl (Some (VStr (id doc))))])
    (OrderItem
     <$> getOrdersArr_static Calendar.env
           (collectionDataOf Calendar.env 50 Calendar.secondAndFifth
              Calendar.daily)).
Proof.
  apply Forall_forall. intros item Hin.
  destruct (delete_order_card Calendar.env 50 Calendar.secondAndFifth
    Calendar.daily Calendar.tenDays _ item ltac:(discriminate)
    (getOrdersArr_orders _ _) Hin) as (doc & Hdoc & _ & _ & Hdel).
  exists doc. split; [done|]. apply Hdel.
  repeat (apply elem_of_cons in Hdoc as [->|Hdoc]; [vm_compute; reflexivity|]).
  by apply elem_of_nil in Hdoc.
Defined.

Lemma collect_keys_mono (E : ScheduleEnv) (c : Z) (qs : QuerySnapshot)
    (acc : CollectionData) (key : string) :
  key ∈ keysOf acc → key ∈ keysOf (collect E c qs acc).
Proof.
  revert acc. induction qs as [|doc qs IH]; intros acc Hk; [done|].
  rewrite collect_cons. apply IH. case_bool_decide; [|done].
  apply elem_of_keysOf_assign. by right.
Qed.

(** A document that passes the filter has its id among the keys. *)
Lemma collect_key_of_fresh (E : ScheduleEnv) (c : Z) (qs : QuerySnapshot)
    (acc : CollectionData) (doc : Doc) :
  doc ∈ qs → c ≤ parseISO E (data doc !! "date") →
  id doc ∈ keysOf (collect E c qs acc).
Proof.
  revert acc. induction qs as [|doc0 qs IH]; intros acc;
    [by intros ?%elem_of_nil|].
  intros [->|Hin]%elem_of_cons Hfresh; rewrite collect_cons.
  - apply collect_keys_mono. rewrite bool_decide_true by done.
    apply elem_of_keysOf_assign. by left.
  - by apply IH.
Qed.

(** X10.  The state holds nothing that the snapshot does not hold: every
    id it lists is the id of a document of the snapshot dated on or
    after the cutoff date, and every record it holds is such a document,
    stripped, with its own id under [key].  So a document that has been
    deleted, once it is gone from the snapshot, is gone from the
    state. *)
Theorem state_within_snapshot (E : ScheduleEnv) (now : Z)
    (qs : QuerySnapshot) (os : OrderSchedule E) (ls : LunchSchedule E) :
  (∀ key,
     key ∈ orderKeys (updateOrders E now qs os ls) →
     ∃ doc, doc ∈ qs ∧ id doc = key
            ∧ getCutoffDate E now os ≤ parseISO E (data doc !! "date"))
  ∧ (∀ d,
       d ∈ recordsOf (updateOrders E now qs os ls) →
       ∃ doc, doc ∈ qs ∧ d = stripDoc doc
              ∧ d !! "key" = Some (VStr (id doc))
              ∧ getCutoffDate E now os ≤ parseISO E (data doc !! "date"))
  ∧ (∀ key,
       key ∉ id <$> qs → key ∉ orderKeys (updateOrders E now qs os ls)).
Proof.
  assert (Hkeys : ∀ key,
    key ∈ orderKeys (updateOrders E now qs os ls) →
    ∃ doc, doc ∈ qs ∧ id doc = key
           ∧ getCutoffDate E now os ≤ parseISO E (data doc !! "date")).
  { intros key [d Hd]%orderKeys_surviving%prop_is_Some.
    destruct (collectionData_origin _ _ _ _ _ _ Hd)
      as (doc & ? & ? & _ & ?).
    by exists doc. }
  split_and!; [done| |].
  - intros d [k Hk]%recordsOf_surviving.
    destruct (collectionData_origin _ _ _ _ _ _ Hk)
      as (doc & ? & _ & -> & ?).
    exists doc. split_and!; [done..|apply stripDoc_key|done].
  - intros key Hno (doc & Hdoc & <- & _)%Hkeys.
    apply Hno. by apply list_elem_of_fmap_2.
Qed.

(** X11.  When the schedule of the store is CUSTOM exactly when the
    schedule the state was reconciled with is (the two may be out of
    step, which is not covered), the list of cards is defined, and when
    a tap on a card focuses an order, [focusOrder] does not throw and
    the id it puts in its action is a property name of the orders
    state: the document id of the order, or the position of the group
    (over groups with ordinary dates). *)
Theorem focused_id_in_state (E : ScheduleEnv) (now : Z)
    (qs : QuerySnapshot) (os : OrderSchedule E) (ls : LunchSchedule E)
    (stored : option (OrderSchedule E)) (dynamicMenu : bool) :
  plainDates (allScheduleGroupsOf E now qs os ls) →
  (stored ≫= scheduleType E = Some CUSTOM ↔ scheduleType E os = Some CUSTOM) →
  ∃ items,
    getOrdersArr E (updateOrders E now qs os ls) (dynamicSchedule E stored)
    = Some items
    ∧ ∀ item key,
        item ∈ items → FocusOrder key ∈ pressItem dynamicMenu item →
        ∃ name, focusOrder key = Some name
                ∧ name ∈ stateKeys (updateOrders E now qs os ls).
Proof.
  intros Hplain Hstored.
  assert (Hflag : dynamicSchedule E stored
                  = bool_decide (scheduleType E os = Some CUSTOM)).
  { unfold dynamicSchedule. by apply bool_decide_ext. }
  rewrite Hflag.
  destruct (getOrdersArr_is_Some E now qs os ls) as [items Hitems].
  exists items. split; [done|]. intros item key Hin Hpress.
  destruct (decide (scheduleType E os = Some CUSTOM)) as [Hc|Hc].
  - rewrite bool_decide_true in Hitems by done.
    destruct (dynamic_items E now qs os ls items item Hc Hitems Hin)
      as (j & e & He & ->).
    pose proof He as (_ & _ & g & _ & Hg & _ & _ & Heq)%elem_of_groupsOf.
    rewrite Nat.sub_0_r in Hg.
    assert (Hkey : gv_key (groupView E e) = Some (ENum (Z.of_nat j))).
    { simpl. rewrite Heq. apply gv_key_groupEntry.
      unfold plainDates in Hplain. rewrite Forall_forall in Hplain.
      apply Hplain. by eapply list_elem_of_lookup_2. }
    rewrite pressItem_group, Hkey in Hpress.
    apply elem_of_cons in Hpress as [[= ->]|Hpress].
    + exists (pretty (Z.of_nat j)). split; [done|].
      destruct (updateOrders E now qs os ls) as [cd|l]; simpl in *;
        [by apply elem_of_nil in He|].
      by apply (list_elem_of_fmap_2 (fun ie => pretty (Z.of_nat ie.1)) _ (j, e)).
    + apply list_elem_of_singleton in Hpress. discriminate.
  - rewrite bool_decide_false in Hitems by done.
    destruct (static_items E now qs os ls items item Hc Hitems Hin)
      as (doc & Hdoc & Hfresh & ->).
    assert (Hkey : readable E (stripDoc doc) !! "key" = Some (VStr (id doc))).
    { unfold readable. rewrite lookup_insert_ne by done. apply stripDoc_key. }
    unfold pressItem, focusOrderNavigate in Hpress. rewrite Hkey in Hpress.
    assert (key = inl (Some (VStr (id doc)))) as ->.
    { destruct (truthy _ && lessThanZero _).
      - apply list_elem_of_singleton in Hpress. discriminate.
      - apply elem_of_cons in Hpress as [[= ->]|Hpress]; [done|].
        apply list_elem_of_singleton in Hpress. discriminate. }
    exists (id doc). split; [done|].
    rewrite (updateOrders_plain E now qs os ls (or_introl Hc)). simpl.
    by apply collect_key_of_fresh.
Qed.

Lemma state_within_snapshot_witness :
  "c" ∉ orderKeys
          (updateOrders Calendar.env 108 Calendar.fifthAndFifteenth
             (Calendar.custom 120) Calendar.fifteenDays).
Proof.
  apply (state_within_snapshot Calendar.env 108 Calendar.fifthAndFifteenth
           (Calendar.custom 120) Calendar.fifteenDays).
  apply (bool_decide_unpack _). vm_compute. exact I.
Defined.

Lemma focused_id_in_state_witness :
  ∃ items,
    getOrdersArr Calendar.env
      (updateOrders Calendar.env 108 Calendar.fifthAndFifteenth
         (Calendar.custom 120) Calendar.fifteenDays)
      (dynamicSchedule Calendar.env (Some (Calendar.custom 24)))
    = Some items
    ∧ ∀ item key,
        item ∈ items → FocusOrder key ∈ pressItem false item →
        ∃ name,
          focusOrder key = Some name
          ∧ name ∈ stateKeys
                     (updateOrders Calendar.env 108
                        Calendar.fifthAndFifteenth (Calendar.custom 120)
                        Calendar.fifteenDays).
Proof.
  apply (focused_id_in_state Calendar.env 108 Calendar.fifthAndFifteenth
           (Calendar.custom 120) Calendar.fifteenDays
           (Some (Calendar.custom 24)) false).
  - apply (bool_decide_unpack _). vm_compute. exact I.
  - done.
Defined.

(** ** The sort of the home screen *)

Section SortedFacts.
Context {A : Type} (compare : A → A → Z) (key : A → Z).
Hypothesis compare_key : ∀ x y, compare x y ≤ 0 ↔ key x ≤ key y.

Lemma insertSorted_sorted (x : A) (l : list A) :
  StronglySorted (fun a b => key a ≤ key b) l →
  StronglySorted (fun a b => key a ≤ key b) (insertSorted compare x l).
Proof.
  induction 1 as [|y r Hr IH Hy]; simpl.
  - repeat constructor.
  - case_bool_decide as Hxy.
    + apply compare_key in Hxy. constructor; [by constructor|].
      constructor; [done|].
      rewrite Forall_forall in Hy |- *. intros z Hz.
      specialize (Hy z Hz). simpl in *. lia.
    + constructor; [done|].
      apply Forall_forall. intros z [->|Hz]%elem_of_insertSorted.
      * rewrite compare_key in Hxy. lia.
      * rewrite Forall_forall in Hy. by apply Hy.
Qed.

Lemma sortBy_StronglySorted (l : list A) :
  StronglySorted (fun a b => key a ≤ key b) (sortBy compare l).
Proof.
  induction l as [|x l IH]; [constructor|].
  simpl. by apply insertSorted_sorted.
Qed.
End SortedFacts.

Lemma insertSorted_Permutation {A} (compare : A → A → Z) (x : A)
    (l : list A) :
  insertSorted compare x l ≡ₚ x :: l.
Proof.
  induction l as [|y r IH]; simpl; [done|].
  case_bool_decide; [done|]. rewrite IH. apply Permutation_swap.
Qed.

Lemma sortBy_Permutation {A} (compare : A → A → Z) (l : list A) :
  sortBy compare l ≡ₚ l.
Proof.
  induction l as [|x l IH]; [done|].
  simpl. fold (sortBy compare l).
  by rewrite insertSorted_Permutation, IH.
Qed.

(** ** The state of a static schedule *)

Lemma NoDup_fmap_List_filter {A B} (f : A → B) (P : A → bool) (l : list A) :
  NoDup (f <$> l) → NoDup (f <$> List.filter P l).
Proof.
  induction l as [|x l IH]; [done|].
  rewrite fmap_cons. intros [Hx Hnd]%NoDup_cons. simpl.
  destruct (P x); [|by apply IH].
  rewrite fmap_cons. apply NoDup_cons. split; [|by apply IH].
  intros (y & Hy & [Hin _]%list_elem_of_In%filter_In)%list_elem_of_fmap.
  apply Hx. rewrite Hy. by apply list_elem_of_fmap_2, list_elem_of_In.
Qed.

Lemma collect_all_pass (E : ScheduleEnv) (c : Z) (qs : QuerySnapshot)
    (acc : CollectionData) :
  (∀ doc, doc ∈ qs → c ≤ parseISO E (data doc !! "date")) →
  collect E c qs acc
  = fold_left (fun a doc => assign (id doc) (stripDoc doc) a) qs acc.
Proof.
  revert acc. induction qs as [|doc qs IH]; intros acc Hall; [done|].
  rewrite collect_cons, bool_decide_true by (apply Hall; by left).
  simpl. apply IH. intros d ?. apply Hall. by right.
Qed.

Lemma List_filter_all {A} (P : A → bool) (l : list A) :
  Forall (fun x => P x = true) l → List.filter P l = l.
Proof.
  induction 1 as [|x l Hx _ IH]; [done|]. simpl. by rewrite Hx, IH.
Qed.

(** [collectionData] is filled from the documents that pass the
    filter. *)
Lemma collectionData_filled (E : ScheduleEnv) (now : Z)
    (qs : QuerySnapshot) (os : OrderSchedule E) :
  NoDup (id <$> qs) →
  collectionDataOf E now qs os
  ≡ₚ map (fun doc => (id doc, stripDoc doc))
       (freshDocs E (getCutoffDate E now os) qs)
  ∧ List.filter (fun kv => ordinaryName kv.1) (collectionDataOf E now qs os)
    = map (fun doc => (id doc, stripDoc doc))
        (List.filter (fun doc => ordinaryName (id doc))
           (freshDocs E (getCutoffDate E now os) qs))
  ∧ StronglySorted keyPrecedes (keysOf (collectionDataOf E now qs os)).
Proof.
  intros Hnd. unfold collectionDataOf. rewrite <-collect_freshDocs.
  rewrite collect_all_pass by (by intros doc [_ ?]%elem_of_freshDocs).
  destruct (fold_assign_fresh id stripDoc
              (freshDocs E (getCutoffDate E now os) qs) [])
    as (Hperm & Hnames & Hsorted).
  - by apply NoDup_fmap_List_filter.
  - intros doc _. apply not_elem_of_nil.
  - split_and!; [done..|]. apply Hsorted, SSorted_nil.
Qed.

(** X12.  From a snapshot with distinct ids, [collectionData] holds
    exactly the documents dated on or after the cutoff date, each once,
    stripped and under its id.  It is enumerated with the documents
    under array indices first, in ascending order, and the documents
    under other ids after them, in the order of the snapshot; so when
    no id is an array index it is in the order of the snapshot.  Under
    a schedule that is not CUSTOM this is the whole state. *)
Theorem collectionData_exact (E : ScheduleEnv) (now : Z)
    (qs : QuerySnapshot) (os : OrderSchedule E) (ls : LunchSchedule E) :
  NoDup (id <$> qs) →
  collectionDataOf E now qs os
  ≡ₚ map (fun doc => (id doc, stripDoc doc))
       (freshDocs E (getCutoffDate E now os) qs)
  ∧ StronglySorted keyPrecedes (keysOf (collectionDataOf E now qs os))
  ∧ List.filter (fun kv => ordinaryName kv.1) (collectionDataOf E now qs os)
    = map (fun doc => (id doc, stripDoc doc))
        (List.filter (fun doc => ordinaryName (id doc))
           (freshDocs E (getCutoffDate E now os) qs))
  ∧ (Forall (fun doc => ordinaryName (id doc) = true) qs →
     collectionDataOf E now qs os
     = map (fun doc => (id doc, stripDoc doc))
         (freshDocs E (getCutoffDate E now os) qs))
  ∧ (scheduleType E os ≠ Some CUSTOM →
     updateOrders E now qs os ls
     = OrdersById (collectionDataOf E now qs os)).
Proof.
  intros Hnd.
  destruct (collectionData_filled E now qs os Hnd) as (Hperm & Hnames & Hsorted).
  split_and!; [done..| |].
  - intros Hord.
    assert (Hfresh :
      Forall (fun doc => ordinaryName (id doc) = true)
        (freshDocs E (getCutoffDate E now os) qs)).
    { apply Forall_forall. intros doc [Hin _]%elem_of_freshDocs.
      rewrite Forall_forall in Hord. by apply Hord. }
    rewrite (List_filter_all _ _ Hfresh) in Hnames.
    rewrite <-Hnames. symmetry. apply List_filter_all.
    rewrite Hperm. apply Forall_forall.
    intros kv (doc & <- & Hin)%list_elem_of_In%in_map_iff.
    apply list_elem_of_In in Hin. rewrite Forall_forall in Hfresh.
    by apply Hfresh.
  - intros Hc. apply updateOrders_plain. by left.
Qed.

(** The theorem on the calendar, orders for the 5th under the id 10 and
    for the 6th under the id 2, read on the 1st: the state enumerates
    them as 2, 10. *)
Lemma collectionData_exact_witness :
  keysOf
    (collectionDataOf Calendar.env 0
       [Calendar.order "10" "u1" 5; Calendar.order "2" "u1" 6]
       Calendar.daily)
  = ["2"; "10"]
  ∧ StronglySorted keyPrecedes
      (keysOf
         (collectionDataOf Calendar.env 0
            [Calendar.order "10" "u1" 5; Calendar.order "2" "u1" 6]
            Calendar.daily)).
Proof.
  split; [vm_compute; reflexivity|].
  apply (collectionData_exact Calendar.env 0
    [Calendar.order "10" "u1" 5; Calendar.order "2" "u1" 6]
    Calendar.daily Calendar.tenDays).
  apply (bool_decide_unpack _). vm_compute. exact I.
Defined.

Lemma compareDates_le (E : ScheduleEnv) (a b : option Value) :
  (∀ v, moment E v = parseISO E v) →
  compareDates E a b ≤ 0 ↔ parseISO E a ≤ parseISO E b.
Proof. intros Hagree. unfold compareDates. rewrite Hagree. lia. Qed.

(** X13.  Under a schedule that is not CUSTOM, when [moment] and
    [parseISO] read a date alike, the home screen lists every surviving
    order of a snapshot with distinct ids exactly once, from the
    soonest date to the farthest, each stripped and with its date made
    readable. *)
Theorem static_cards_sorted (E : ScheduleEnv) (now : Z) (qs : QuerySnapshot)
    (os : OrderSchedule E) (ls : LunchSchedule E) :
  scheduleType E os ≠ Some CUSTOM →
  NoDup (id <$> qs) →
  (∀ v, moment E v = parseISO E v) →
  ∃ shown,
    getOrdersArr E (updateOrders E now qs os ls) false
    = Some (OrderItem <$> (readable E <$> shown))
    ∧ shown ≡ₚ stripDoc <$> freshDocs E (getCutoffDate E now os) qs
    ∧ StronglySorted
        (fun a b : Data => parseISO E (a !! "date") ≤ parseISO E (b !! "date"))
        shown.
Proof.
  intros Hc Hnd Hagree.
  destruct (collectionData_filled E now qs os Hnd) as (Hperm & _ & _).
  rewrite (updateOrders_plain E now qs os ls (or_introl Hc)).
  rewrite getOrdersArr_orders. unfold getOrdersArr_static.
  eexists. split_and!; [done| |].
  - rewrite sortBy_Permutation. unfold valuesOf. rewrite Hperm.
    change (map ?f ?l) with (f <$> l). by rewrite <-list_fmap_compose.
  - apply (sortBy_StronglySorted _ (fun a : Data => parseISO E (a !! "date"))).
    intros x y. by apply compareDates_le.
Qed.

Lemma static_cards_sorted_witness :
  ∃ shown,
    getOrdersArr Calendar.env
      (updateOrders Calendar.env 0 Calendar.fifthAndFifteenth Calendar.daily
         Calendar.fifteenDays) false
    = Some (OrderItem <$> (readable Calendar.env <$> shown))
    ∧ shown
      ≡ₚ stripDoc
         <$> freshDocs Calendar.env
               (getCutoffDate Calendar.env 0 Calendar.daily)
               Calendar.fifthAndFifteenth
    ∧ StronglySorted
        (fun a b : Data =>
           parseISO Calendar.env (a !! "date")
           ≤ parseISO Calendar.env (b !! "date"))
        shown.
Proof.
  apply (static_cards_sorted Calendar.env 0 Calendar.fifthAndFifteenth
           Calendar.daily Calendar.fifteenDays).
  - discriminate.
  - apply (bool_decide_unpack _). vm_compute. exact I.
  - reflexivity.
Defined.

(** X14.  Under a CUSTOM schedule, when [moment] and [parseISO] read a
    date alike, the home screen lists every group object of the state
    exactly once, from the soonest first date to the farthest, whatever
    the order of the group sequence is. *)
Theorem dynamic_cards_sorted (E : ScheduleEnv) (now : Z)
    (qs : QuerySnapshot) (os : OrderSchedule E) (ls : LunchSchedule E) :
  scheduleType E os = Some CUSTOM →
  (∀ v, moment E v = parseISO E v) →
  ∃ shown,
    getOrdersArr E (updateOrders E now qs os ls) true
    = Some (GroupItem <$> (groupView E <$> shown))
    ∧ shown ≡ₚ valuesOf (groupsOf (updateOrders E now qs os ls))
    ∧ StronglySorted
        (fun a b => parseISO E (firstDate a) ≤ parseISO E (firstDate b))
        shown.
Proof.
  intros Hc Hagree.
  destruct (updateOrders_cases E now qs os ls)
    as [(_ & _ & ->)|([?| ->] & ->)]; [|done|].
  - rewrite getOrdersArr_groups. unfold getOrdersArr_dynamic. simpl.
    eexists. split_and!; [done| |].
    + apply sortBy_Permutation.
    + apply (sortBy_StronglySorted _ (fun e => parseISO E (firstDate e))).
      intros x y. by apply compareDates_le.
  - exists []. simpl. split_and!; [done..|constructor].
Qed.

Lemma dynamic_cards_sorted_witness :
  ∃ shown,
    getOrdersArr Calendar.env
      (updateOrders Calendar.env 108 Calendar.fifthAndFifteenth
         (Calendar.custom 120) Calendar.fifteenDays) true
    = Some (GroupItem <$> (groupView Calendar.env <$> shown))
    ∧ shown
      ≡ₚ valuesOf
           (groupsOf
              (updateOrders Calendar.env 108 Calendar.fifthAndFifteenth
                 (Calendar.custom 120) Calendar.fifteenDays))
    ∧ StronglySorted
        (fun a b =>
           parseISO Calendar.env (firstDate a)
           ≤ parseISO Calendar.env (firstDate b))
        shown.
Proof.
  apply (dynamic_cards_sorted Calendar.env 108 Calendar.fifthAndFifteenth
           (Calendar.custom 120) Calendar.fifteenDays); reflexivity.
Defined.

(** ** What a group card holds *)



(** ** Two orders for one date *)

Section LastWins.
Variable cd : CollectionData.

Lemma addOrders_snoc (ks : list string) (key : string) (e : Entry) :
  addOrders cd (ks ++ [key]) e
  = match prop key cd with
    | Some d => assign (propertyKey (d !! "date")) (EOrder d) (addOrders cd ks e)
    | None => addOrders cd ks e
    end.
Proof. unfold addOrders. by rewrite fold_left_app. Qed.

Lemma NoDup_keysOf_addOrders (ks : list string) (e : Entry) :
  NoDup (keysOf e) → NoDup (keysOf (addOrders cd ks e)).
Proof.
  revert e. induction ks as [|key ks IH]; intros e Hnd; [done|].
  rewrite addOrders_cons. apply IH.
  destruct (prop key cd); [by apply NoDup_keysOf_assign|done].
Qed.

(** The record a group object holds under a date is the record of the
    last relevant key with that date. *)
Lemma addOrders_last (ks1 ks2 : list string) (key s : string) (d : Data)
    (e : Entry) :
  prop key cd = Some d → propertyKey (d !! "date") = s →
  (∀ key' d', key' ∈ ks2 → prop key' cd = Some d' →
              propertyKey (d' !! "date") ≠ s) →
  prop s (addOrders cd (ks1 ++ key :: ks2) e) = Some (EOrder d).
Proof.
  intros Hd Hs. induction ks2 as [|key2 ks2 IH] using rev_ind; intros Hlater.
  - rewrite addOrders_snoc, Hd, Hs. apply prop_assign_eq.
  - rewrite app_comm_cons, app_assoc, addOrders_snoc.
    assert (Hrest : prop s (addOrders cd (ks1 ++ key :: ks2) e)
                    = Some (EOrder d)).
    { apply IH. intros key' d' ?. apply Hlater. apply elem_of_app. by left. }
    destruct (prop key2 cd) as [d2|] eqn:Hd2; [|done].
    rewrite prop_assign_ne; [done|].
    apply (Hlater key2); [|done]. apply elem_of_app. right. by left.
Qed.
End LastWins.

(** X16.  When two surviving orders of a group have the same date, the
    group object lists the keys of both but holds, under that date, the
    record of the later key only: the record of the earlier key is not
    in the group object. *)
Theorem same_date_last_wins (E : ScheduleEnv) (now : Z) (qs : QuerySnapshot)
    (os : OrderSchedule E) (ls : LunchSchedule E) (j : nat) (e : Entry)
    (g : Group) (ks1 ks2 : list string) (key : string) (d : Data)
    (s : string) :
  (j, e) ∈ groupsOf (updateOrders E now qs os ls) →
  allScheduleGroupsOf E now qs os ls !! j = Some g →
  Forall (fun s => s ∉ ["date"; "key"; "index"; "keys"]) g →
  relevantKeysOf (collectionDataOf E now qs os) g = ks1 ++ key :: ks2 →
  prop key (collectionDataOf E now qs os) = Some d →
  d !! "date" = Some (VStr s) →
  (∀ key' d', key' ∈ ks2 →
              prop key' (collectionDataOf E now qs os) = Some d' →
              d' !! "date" ≠ Some (VStr s)) →
  prop s e = Some (EOrder d)
  ∧ (∀ key0 d0,
       key0 ∈ ks1 →
       prop key0 (collectionDataOf E now qs os) = Some d0 →
       d0 !! "date" = Some (VStr s) → d0 ≠ d →
       key0 ∈ entryKeys e ∧ d0 ∉ entryRecords e).
Proof.
  intros (_ & _ & g' & _ & Hg' & _ & _ & ->)%elem_of_groupsOf Hg Hplain
    Hks Hd Hs Hlater.
  rewrite Nat.sub_0_r in Hg'. rewrite Hg in Hg'. injection Hg' as <-.
  match goal with
  | |- context [groupEntry _ _ _ ?n _] => generalize n
  end.
  intros index.
  assert (Hlater' : ∀ key' d', key' ∈ ks2 →
    prop key' (collectionDataOf E now qs os) = Some d' →
    propertyKey (d' !! "date") ≠ s).
  { intros key' d' Hin Hd' Heq.
    assert (Hrel : key' ∈ relevantKeysOf (collectionDataOf E now qs os) g).
    { rewrite Hks. apply elem_of_app. right. by right. }
    apply elem_of_relevantKeysOf in Hrel as (d'' & Hd'' & Hinc).
    rewrite Hd' in Hd''. injection Hd'' as <-.
    destruct (matches_date _ _ _ _ Hd' Hinc) as (s' & Hs' & _).
    rewrite Hs' in Heq. simpl in Heq. subst s'.
    by apply (Hlater key' d'). }
  assert (Hheld :
    prop s (groupEntry (collectionDataOf E now qs os) g j index
              (relevantKeysOf (collectionDataOf E now qs os) g))
    = Some (EOrder d)).
  { unfold groupEntry. rewrite Hks.
    apply addOrders_last; [done|by rewrite Hs|done]. }
  split; [done|].
  intros key0 d0 Hin0 Hd0 Hs0 Hne. split.
  - rewrite entryKeys_groupEntry by done. rewrite Hks.
    apply elem_of_app. by left.
  - unfold entryRecords. rewrite list_elem_of_omap.
    intros ([k v] & Hkv & Hv). simpl in Hv.
    destruct v as [| | |d1]; try done. injection Hv as ->.
    assert (Hprop :
      prop k (groupEntry (collectionDataOf E now qs os) g j index
                (relevantKeysOf (collectionDataOf E now qs os) g))
      = Some (EOrder d0)).
    { apply elem_of_prop; [|done]. unfold groupEntry.
      apply NoDup_keysOf_addOrders.
      apply (bool_decide_unpack _). by vm_compute. }
    unfold groupEntry in Hkv.
    apply elem_of_addOrders in Hkv as [Hkv|(key1 & d1 & _ & _ & [= -> ->])].
    + repeat (apply elem_of_cons in Hkv as [Heq|Hkv]; [by inversion Heq|]).
      by apply elem_of_nil in Hkv.
    + rewrite Hs0 in Hprop. simpl in Hprop. rewrite Hheld in Hprop.
      by injection Hprop as ->.
Qed.

(** The theorem on the calendar: two orders for the 8th. *)
Lemma same_date_last_wins_witness :
  ∃ e,
    (1%nat, e)
    ∈ groupsOf
        (updateOrders Calendar.env 0
           [Calendar.order "a" "u1" 8; Calendar.order "b" "u1" 8]
           (Calendar.custom 12) Calendar.tenDays)
    ∧ prop "2021-03-08" e = Some (EOrder (stripDoc (Calendar.order "b" "u1" 8)))
    ∧ "a" ∈ entryKeys e
    ∧ stripDoc (Calendar.order "a" "u1" 8) ∉ entryRecords e.
Proof.
  assert (Hhead : ∃ e,
    head (groupsOf
            (updateOrders Calendar.env 0
               [Calendar.order "a" "u1" 8; Calendar.order "b" "u1" 8]
               (Calendar.custom 12) Calendar.tenDays)) = Some (1%nat, e)).
  { eexists. vm_compute. reflexivity. }
  destruct Hhead as [e Hhead]. exists e.
  assert (Hin : (1%nat, e)
    ∈ groupsOf
        (updateOrders Calendar.env 0
           [Calendar.order "a" "u1" 8; Calendar.order "b" "u1" 8]
           (Calendar.custom 12) Calendar.tenDays)).
  { apply head_Some in Hhead as [l ->]. by left. }
  split; [done|].
  destruct (same_date_last_wins Calendar.env 0
    [Calendar.order "a" "u1" 8; Calendar.order "b" "u1" 8]
    (Calendar.custom 12) Calendar.tenDays 1 e
    ["2021-03-06"; "2021-03-07"; "2021-03-08"] ["a"] [] "b"
    (stripDoc (Calendar.order "b" "u1" 8)) "2021-03-08" Hin)
    as [Hheld Hlost].
  - vm_compute. reflexivity.
  - apply (bool_decide_unpack _). vm_compute. exact I.
  - vm_compute. reflexivity.
  - vm_compute. reflexivity.
  - vm_compute. reflexivity.
  - intros key' d' Hnil. apply elem_of_nil in Hnil. destruct Hnil.
  - split; [exact Hheld|].
    apply (Hlost "a" (stripDoc (Calendar.order "a" "u1" 8))).
    + by left.
    + vm_compute. reflexivity.
    + vm_compute. reflexivity.
    + intros Heq%(f_equal (fun d : Data => d !! "key")).
      vm_compute in Heq. discriminate.
Defined.

(** ** Which orders are too late *)

Lemma availableCount_zero (available l : list Group) :
  availableCount available l = 0%nat ↔
  ∀ g, g ∈ l → isAvailable available g = false.
Proof.
  induction l as [|g0 l IH].
  - split; [by intros _ g ?%elem_of_nil|done].
  - rewrite availableCount_cons. split.
    + destruct (isAvailable available g0) eqn:Hav; [done|].
      intros Hz g [->|Hin]%elem_of_cons; [done|]. by apply IH.
    + intros Hall. rewrite (Hall g0) by by left.
      apply IH. intros g ?. apply Hall. by right.
Qed.

Lemma availableCount_take_mono (available l : list Group) (i j : nat) :
  (i ≤ j)%nat →
  (availableCount available (take i l)
   ≤ availableCount available (take j l))%nat.
Proof.
  intros Hle. rewrite <-(take_drop i (take j l)), availableCount_app.
  rewrite take_take, Nat.min_l by done. lia.
Qed.

(** X17.  Under a CUSTOM schedule whose groups have ordinary dates,
    every group object records an index;  the index is negative, the
    mark of an order too late to edit, exactly when the first available
    group is past its cutoff and no group before the object's position
    is available;  and the indices never decrease along the
    positions. *)
Theorem too_late_before_first_available (E : ScheduleEnv) (now : Z)
    (qs : QuerySnapshot) (os : OrderSchedule E) (ls : LunchSchedule E)
    (j : nat) (e : Entry) :
  plainDates (allScheduleGroupsOf E now qs os ls) →
  (j, e) ∈ groupsOf (updateOrders E now qs os ls) →
  ∃ n,
    entryIndex e = Some n
    ∧ (n < 0 ↔
       includesCutoffOf E now (availableScheduleGroupsOf E now qs os ls)
         os ls = true
       ∧ ∀ i g,
           (i < j)%nat → allScheduleGroupsOf E now qs os ls !! i = Some g →
           isAvailable (availableScheduleGroupsOf E now qs os ls) g = false)
    ∧ (∀ j' e' n',
         (j', e') ∈ groupsOf (updateOrders E now qs os ls) →
         (j ≤ j')%nat → entryIndex e' = Some n' → n ≤ n').
Proof.
  intros Hplain Hin.
  assert (Hindex : ∀ j e,
    (j, e) ∈ groupsOf (updateOrders E now qs os ls) →
    entryIndex e
    = Some
        (initialIndex
           (includesCutoffOf E now
              (availableScheduleGroupsOf E now qs os ls) os ls)
         + Z.of_nat
             (availableCount (availableScheduleGroupsOf E now qs os ls)
                (take j (allScheduleGroupsOf E now qs os ls))))).
  { intros j0 e0 (_ & _ & g & _ & Hg & _ & _ & ->)%elem_of_groupsOf.
    rewrite Nat.sub_0_r in Hg |- *. apply entryIndex_groupEntry.
    unfold plainDates in Hplain. rewrite Forall_forall in Hplain.
    apply Hplain. by eapply list_elem_of_lookup_2. }
  eexists. split_and!; [by apply Hindex| |].
  - pose proof (availableCount_zero
      (availableScheduleGroupsOf E now qs os ls)
      (take j (allScheduleGroupsOf E now qs os ls))) as Hzero.
    assert (Hbefore :
      (∀ g, g ∈ take j (allScheduleGroupsOf E now qs os ls) →
            isAvailable (availableScheduleGroupsOf E now qs os ls) g = false)
      ↔ ∀ i g,
          (i < j)%nat → allScheduleGroupsOf E now qs os ls !! i = Some g →
          isAvailable (availableScheduleGroupsOf E now qs os ls) g = false).
    { split.
      - intros Hall i g Hi Hg. apply Hall.
        apply list_elem_of_lookup. exists i. by rewrite lookup_take_lt.
      - intros Hall g (i & Hg)%list_elem_of_lookup.
        destruct (decide (i < j)%nat) as [Hi|Hi].
        + rewrite lookup_take_lt in Hg by done. by eapply Hall.
        + rewrite lookup_take_ge in Hg by lia. done. }
    rewrite <-Hbefore, <-Hzero. unfold initialIndex.
    destruct (includesCutoffOf E now _ os ls); split.
    + intros ?. split; [done|]. lia.
    + intros [_ ->]. lia.
    + lia.
    + by intros [? _].
  - intros j' e' n' Hin' Hle Hn'. rewrite (Hindex _ _ Hin') in Hn'.
    injection Hn' as <-.
    pose proof (availableCount_take_mono
      (availableScheduleGroupsOf E now qs os ls)
      (allScheduleGroupsOf E now qs os ls) j j' Hle).
    lia.
Qed.

Lemma too_late_before_first_available_witness :
  map (fun ie => (ie.1, entryIndex ie.2))
    (groupsOf
       (updateOrders Calendar.env 108 Calendar.fifthAndFifteenth
          (Calendar.custom 120) Calendar.fifteenDays))
  = [(0%nat, Some (-1)); (2%nat, Some 0)]
  ∧ Forall
      (fun je =>
         ∃ n,
           entryIndex je.2 = Some n
           ∧ (n < 0 ↔
              includesCutoffOf Calendar.env 108
                (availableScheduleGroupsOf Calendar.env 108
                   Calendar.fifthAndFifteenth (Calendar.custom 120)
                   Calendar.fifteenDays)
                (Calendar.custom 120) Calendar.fifteenDays = true
              ∧ ∀ i g,
                  (i < je.1)%nat →
                  allScheduleGroupsOf Calendar.env 108
                    Calendar.fifthAndFifteenth (Calendar.custom 120)
                    Calendar.fifteenDays !! i = Some g →
                  isAvailable
                    (availableScheduleGroupsOf Calendar.env 108
                       Calendar.fifthAndFifteenth (Calendar.custom 120)
                       Calendar.fifteenDays) g = false))
      (groupsOf
         (updateOrders Calendar.env 108 Calendar.fifthAndFifteenth
            (Calendar.custom 120) Calendar.fifteenDays)).
Proof.
  split; [vm_compute; reflexivity|].
  apply Forall_forall. intros [j e] Hin.
  destruct (too_late_before_first_available Calendar.env 108
    Calendar.fifthAndFifteenth (Calendar.custom 120) Calendar.fifteenDays j e
    ltac:(apply (bool_decide_unpack _); vm_compute; exact I) Hin)
    as (n & Hn & Hlate & _).
  by exists n.
Defined.

(** ** The domains of a user *)

(** X18.  When the transaction of [createUser] for an existing account
    goes through, the domain was not among the stored ones and is
    appended after them, so a list without duplicates stays so, the
    domain [getUserDomain] selected before is the one it selects
    afterwards, and a second registration with the same domain is
    refused.  A document that held a single [domain] is rewritten as the
    list of that domain and the new one. *)
Theorem join_keeps_first_domain (doc : option UserDomains)
    (domain : string) (doc' : UserDomains) :
  joinDomain doc domain = Some doc' →
  (Some domain ∉ storedDomains doc)
  ∧ storedDomains (Some doc') = storedDomains doc ++ [Some domain]
  ∧ (NoDup (storedDomains doc) → NoDup (storedDomains (Some doc')))
  ∧ (∀ first,
       getUserDomain doc = Some (Some first) →
       getUserDomain (Some doc') = Some (Some first))
  ∧ joinDomain (Some doc') domain = None.
Proof.
  unfold joinDomain. case_bool_decide as Hin; [done|]. intros [= <-].
  split_and!; [done|done| | |].
  - intros Hnd. simpl. apply NoDup_app. split_and!; [done| |].
    + intros x Hx ->%list_elem_of_singleton. done.
    + apply NoDup_singleton.
  - intros first. destruct doc as [[[l|] [s|]]|]; simpl; try done.
    + intros [= Hhead]. f_equal.
      destruct l as [|x l]; [done|]. simpl in *. done.
    + intros [= Hhead]. f_equal.
      destruct l as [|x l]; [done|]. simpl in *. done.
    + case_bool_decide; [done|]. by intros [= ->].
  - simpl. rewrite bool_decide_true; [done|].
    apply elem_of_app. right. apply list_elem_of_singleton. done.
Qed.

Lemma join_keeps_first_domain_witness :
  getUserDomain
    (Some {| ud_domains := Some [Some "north"; Some "south"];
             ud_domain := None |})
  = Some (Some "north").
Proof.
  refine (proj1 (proj2 (proj2 (proj2 (join_keeps_first_domain
    (Some {| ud_domains := None; ud_domain := Some "north" |}) "south"
    {| ud_domains := Some [Some "north"; Some "south"]; ud_domain := None |}
    _)))) "north" _).
  - vm_compute. reflexivity.
  - vm_compute. reflexivity.
Defined.

(** X19.  The document [createUser] sets for a new account makes
    [getUserDomain] select the domain of the registration, and so it
    stays however many other domains the account joins afterwards, each
    transaction going through. *)
Theorem first_domain_stays (domain : string) (others : list string)
    (doc : UserDomains) :
  foldl (fun d other => d ≫= fun d' => joinDomain (Some d') other)
    (Some (firstDomain domain)) others = Some doc →
  getUserDomain (Some doc) = Some (Some domain)
  ∧ storedDomains (Some doc) = Some <$> (domain :: others)
  ∧ NoDup (domain :: others).
Proof.
  revert doc. induction others as [|other others IH] using rev_ind;
    intros doc.
  - intros [= <-]. split_and!; [done..|]. apply NoDup_singleton.
  - rewrite foldl_snoc.
    destruct (foldl _ _ others) as [d|] eqn:Hd; [|done].
    intros Hjoin. change (joinDomain (Some d) other = Some doc) in Hjoin.
    destruct (IH d eq_refl) as (Hget & Hstored & Hnd).
    destruct (join_keeps_first_domain _ _ _ Hjoin)
      as (Hnew & Happ & _ & Hfirst & _).
    split; [|split].
    + by apply Hfirst.
    + rewrite Happ, Hstored. by rewrite (fmap_app _ (domain :: others) [other]).
    + rewrite app_comm_cons. apply NoDup_app. split_and!; [done| |].
      * intros x Hx ->%list_elem_of_singleton. apply Hnew.
        rewrite Hstored. by apply list_elem_of_fmap_2.
      * apply NoDup_singleton.
Qed.

Lemma first_domain_stays_witness :
  getUserDomain
    (Some {| ud_domains := Some [Some "north"; Some "south"; Some "east"];
             ud_domain := None |})
  = Some (Some "north").
Proof.
  refine (proj1 (first_domain_stays "north" ["south"; "east"]
    {| ud_domains := Some [Some "north"; Some "south"; Some "east"];
       ud_domain := None |} _)).
  vm_compute. reflexivity.
Defined.

(** ** The dynamic menu *)

Lemma menu_dates_lookup (o : MenuVal) (dates : list string)
    (acc : gmap string MenuVal) (k : string) :
  fold_left (fun a date => <[date := o]> a) dates acc !! k
  = if bool_decide (k ∈ dates) then Some o else acc !! k.
Proof.
  revert acc. induction dates as [|d dates IH]; intros acc; simpl; [done|].
  rewrite IH. destruct (decide (k ∈ dates)) as [Hin|Hin].
  - rewrite !bool_decide_true; [done| |done]. by right.
  - rewrite (bool_decide_false _ Hin).
    destruct (decide (k = d)) as [->|Hne].
    + rewrite lookup_insert_eq, bool_decide_true; [done|]. by left.
    + rewrite lookup_insert_ne by done. rewrite bool_decide_false; [done|].
      intros [?|?]%elem_of_cons; done.
Qed.

Lemma menu_lookup_from (docs : list MenuDoc) (acc : gmap string MenuVal)
    (k : string) :
  fold_left
    (fun all doc =>
       fold_left (fun a date => <[date := MenuOptions (orderOptions doc)]> a)
         (active doc) all)
    docs acc !! k
  = match last (filter (fun doc => k ∈ active doc) docs) with
    | Some doc => Some (MenuOptions (orderOptions doc))
    | None => acc !! k
    end.
Proof.
  induction docs as [|doc docs IH] using rev_ind; [done|].
  rewrite fold_left_app, filter_app. simpl. rewrite menu_dates_lookup.
  rewrite filter_cons, filter_nil.
  destruct (decide (k ∈ active doc)) as [Hin|Hin].
  - by rewrite last_snoc, bool_decide_true.
  - by rewrite app_nil_r, bool_decide_false.
Qed.

(** X20.  In the object [getDynamicOrderOptions] builds, a date that
    some menu lists as active holds the order options of the last menu
    of the snapshot that lists it; when the menus that list a date
    agree on their options, as the code assumes, these are the options
    of any of them.  A name that no menu lists is as in the initial
    object: [dynamic] is true and any other name is absent. *)
Theorem menu_options_by_date (docs : list MenuDoc) (date : string) :
  (∀ before doc after,
     docs = before ++ doc :: after → date ∈ active doc →
     Forall (fun later => date ∉ active later) after →
     getDynamicOrderOptions docs !! date
     = Some (MenuOptions (orderOptions doc)))
  ∧ ((∀ doc1 doc2,
        doc1 ∈ docs → doc2 ∈ docs →
        date ∈ active doc1 → date ∈ active doc2 →
        orderOptions doc1 = orderOptions doc2) →
     ∀ doc,
       doc ∈ docs → date ∈ active doc →
       getDynamicOrderOptions docs !! date
       = Some (MenuOptions (orderOptions doc)))
  ∧ (Forall (fun doc => date ∉ active doc) docs →
     getDynamicOrderOptions docs !! date
     = if bool_decide (date = "dynamic") then Some (MenuFlag true) else None).
Proof.
  unfold getDynamicOrderOptions. split_and!.
  - intros before doc after -> Hin Hafter. rewrite menu_lookup_from.
    rewrite filter_app, filter_cons_True by done.
    assert (Hnone : filter (fun doc => date ∈ active doc) after = []).
    { clear -Hafter. induction Hafter as [|x l Hx _ IH]; [done|].
      by rewrite filter_cons_False. }
    by rewrite Hnone, last_snoc.
  - intros Hagree doc Hdoc Hin. rewrite menu_lookup_from.
    destruct (last _) as [doc'|] eqn:Hlast.
    + apply last_Some_elem_of, list_elem_of_filter in Hlast as [Hin' Hdoc'].
      do 2 f_equal. by apply Hagree.
    + apply last_None in Hlast.
      by destruct (filter_nil_not_elem_of _ _ _ Hlast Hin).
  - intros Hnone. rewrite menu_lookup_from.
    assert (Hnil : filter (fun doc => date ∈ active doc) docs = []).
    { clear -Hnone. induction Hnone as [|x l Hx _ IH]; [done|].
      by rewrite filter_cons_False. }
    rewrite Hnil. simpl. case_bool_decide as Hd.
    + subst. apply lookup_singleton_eq.
    + by apply lookup_singleton_ne.
Qed.

Lemma menu_options_by_date_witness :
  getDynamicOrderOptions
    [ {| active := ["2021-03-07"; "2021-03-14"];
         orderOptions := VStr "spring" |};
      {| active := ["2021-03-14"]; orderOptions := VStr "late" |};
      {| active := ["2021-03-21"]; orderOptions := VStr "last" |} ]
  !! "2021-03-14"
  = Some (MenuOptions (VStr "late")).
Proof.
  refine (proj1 (menu_options_by_date _ "2021-03-14")
    [ {| active := ["2021-03-07"; "2021-03-14"];
         orderOptions := VStr "spring" |} ]
    {| active := ["2021-03-14"]; orderOptions := VStr "late" |}
    [ {| active := ["2021-03-21"]; orderOptions := VStr "last" |} ]
    eq_refl _ _).
  - apply (bool_decide_unpack _). vm_compute. exact I.
  - apply (bool_decide_unpack _). vm_compute. exact I.
Defined.
